(** * The MEV pipeline of thoerner/mev-bot: mempool listener and bundle simulator

    A shallow embedding of
    - [mempool-listener.ts] (class [MempoolListener]: deduplication,
      enrichment, calldata decoding, Redis storage, periodic cleanup),
    - [bundle-simulator.ts] (class [BundleSimulator]: [simulateBundle],
      [resetFork]) and the earlier copy of that class, whose [resetFork]
      differs,
    - [constants.ts] (router ABI, configuration values),
    followed by the properties established about them.

    Conventions of the embedding.
    - An [async] method is a computation in the state-and-exception monad
      [Js.M]; [await e] is a monadic bind, [throw] and rejected promises are
      [Js.Throw], [try { } catch { }] is [Js.try_catch].  One invocation runs
      to completion before the next one starts; [InterleavedListener] has
      the pending-transaction handler suspended at each [await], for the
      invocations that the subscription starts while others are under way.
    - A JavaScript [bigint] is a [Z].  A JavaScript [number] that holds an
      integer is a [Z] as well, and every arithmetic operation on numbers
      rounds with [Js.fl] to the nearest double.
    - An address is the 160-bit integer that its hexadecimal text denotes;
      the case of the text only carries the checksum, so the lower-cased
      dictionary keys of the source are these integers.
    - Calldata is the list of bytes that its hexadecimal text denotes.
    - [console.log] and [console.error] have no effect on the state and are
      left out. *)

From stdpp Require Import gmap strings list fin_maps pretty.
From Stdlib Require Import ZArith Lia Ascii.
From Stdlib.Strings Require Import Byte.

Open Scope Z_scope.

(* ===================================================================== *)
(** * Part I: definitions                                                 *)
(* ===================================================================== *)

(** ** JavaScript: thrown values, promises, numbers, BigInt *)

Module Js.

(** What a [catch (error)] clause receives: an [Error] instance with its
    [message], or some other value. *)
Inductive Thrown : Type :=
| ErrorObj (message : string)
| NonError.

Inductive outcome (A : Type) : Type :=
| Ok (a : A)
| Throw (e : Thrown).
Arguments Ok {A} a.
Arguments Throw {A} e.

(** Computations over a state [S] that return normally or throw. *)
Definition M (S A : Type) : Type := S -> outcome A * S.

Definition ret {S A} (a : A) : M S A := fun s => (Ok a, s).

Definition bind {S A B} (m : M S A) (k : A -> M S B) : M S B :=
  fun s => match m s with
           | (Ok a, s') => k a s'
           | (Throw e, s') => (Throw e, s')
           end.

Definition throw {S A} (e : Thrown) : M S A := fun s => (Throw e, s).

(** [try { body } catch (error) { handler }]: the state changes made by
    [body] before it threw are kept. *)
Definition try_catch {S A} (body : M S A) (handler : Thrown -> M S A) : M S A :=
  fun s => match body s with
           | (Ok a, s') => (Ok a, s')
           | (Throw e, s') => handler e s'
           end.

Definition get {S} : M S S := fun s => (Ok s, s).

(** A computation that touches no state (parsing, formatting), run from
    inside any other computation. *)
Definition pure_call {S A} (m : M unit A) : M S A := fun s => (fst (m tt), s).
Definition modify {S} (f : S -> S) : M S unit := fun s => (Ok tt, f s).

(** [error instanceof Error ? error.message : "Unknown error"] *)
Definition message_of (e : Thrown) : string :=
  match e with
  | ErrorObj m => m
  | NonError => "Unknown error"
  end.

(** *** Numbers *)

Definition MAX_SAFE_INTEGER : Z := 2 ^ 53 - 1.

(** Rounding of an integer to the nearest double, ties to even.  Integers
    of magnitude up to [2^53] are doubles already.  Magnitudes of [2^1024]
    and more, which JavaScript turns into [Infinity], are outside the
    model. *)
Definition fl (z : Z) : Z :=
  let a := Z.abs z in
  if a <=? 2 ^ 53 then z
  else
    let e := Z.log2 a - 52 in
    let q := Z.shiftr a e in
    let r := Z.land a (Z.ones e) in
    let half := Z.shiftl 1 (e - 1) in
    let q' := if r <? half then q
              else if half <? r then q + 1
              else if Z.even q then q else q + 1 in
    Z.sgn z * Z.shiftl q' e.

(** [a + b] and [a - b] on numbers. *)
Definition number_add (a b : Z) : Z := fl (a + b).
Definition number_sub (a b : Z) : Z := fl (a - b).

(** [Number(b)] for a bigint [b], and [BigInt(n)] for an integer-valued
    number [n] (exact). *)
Definition Number_of_bigint (b : Z) : Z := fl b.
Definition BigInt_of_number (n : Z) : Z := n.

(** [x.toString()] for a bigint or an integer-valued number. *)
Definition toString (z : Z) : string := pretty z.

(** *** [BigInt(string)]: the StringToBigInt grammar of ECMAScript *)

Definition is_whitespace (c : ascii) : bool :=
  let n := Z.of_nat (nat_of_ascii c) in
  (n =? 32) || ((9 <=? n) && (n <=? 13)).

Fixpoint ltrim (s : string) : string :=
  match s with
  | String c s' => if is_whitespace c then ltrim s' else s
  | EmptyString => EmptyString
  end.

Definition trim (s : string) : string :=
  String.rev (ltrim (String.rev (ltrim s))).

Definition digit_value (c : ascii) : option Z :=
  let n := Z.of_nat (nat_of_ascii c) in
  if (48 <=? n) && (n <=? 57) then Some (n - 48)
  else if (97 <=? n) && (n <=? 102) then Some (n - 87)
  else if (65 <=? n) && (n <=? 70) then Some (n - 55)
  else None.

Fixpoint parse_digits_from (base acc : Z) (s : string) : option Z :=
  match s with
  | EmptyString => Some acc
  | String c s' =>
      match digit_value c with
      | Some d => if d <? base then parse_digits_from base (acc * base + d) s' else None
      | None => None
      end
  end.

(** At least one digit is required. *)
Definition parse_digits (base : Z) (s : string) : option Z :=
  match s with
  | EmptyString => None
  | _ => parse_digits_from base 0 s
  end.

Definition StringToBigInt (s : string) : option Z :=
  match trim s with
  | EmptyString => Some 0
  | String "+" r => parse_digits 10 r
  | String "-" r => Z.opp <$> parse_digits 10 r
  | String "0" (String "x" r) | String "0" (String "X" r) => parse_digits 16 r
  | String "0" (String "o" r) | String "0" (String "O" r) => parse_digits 8 r
  | String "0" (String "b" r) | String "0" (String "B" r) => parse_digits 2 r
  | t => parse_digits 10 t
  end.

(** ethers' [BigNumberish]: a string, a number or a bigint. *)
Inductive BigNumberish : Type :=
| BnString (s : string)
| BnNumber (n : Z)
| BnBigInt (b : Z).

(** Truthiness of [v] in [if (v)] and [v || d]; [null] and [undefined]
    are [None]. *)
Definition truthy (v : option BigNumberish) : bool :=
  match v with
  | None => false
  | Some (BnString s) => negb (String.eqb s "")
  | Some (BnNumber n) => negb (n =? 0)
  | Some (BnBigInt b) => negb (b =? 0)
  end.

(** [BigInt(v)]; a string that is no integer literal is a SyntaxError. *)
Definition BigInt {S} (v : BigNumberish) : M S Z :=
  match v with
  | BnString s =>
      match StringToBigInt s with
      | Some z => ret z
      | None => throw (ErrorObj ("Cannot convert " +:+ s +:+ " to a BigInt"))
      end
  | BnNumber n => ret (BigInt_of_number n)
  | BnBigInt b => ret b
  end.

(** JSON values, as passed to a raw JSON-RPC call. *)
#[warnings="-register-all"] Inductive Json : Type :=
| JNull
| JString (s : string)
| JNumber (n : Z)
| JArray (items : list Json)
| JObject (fields : list (string * Json)).

End Js.

Export Js (Ok, Throw, ErrorObj, NonError).

(** ** The router ABI and its calldata codec

    [ethers.Interface] built from [ABIS.UNISWAP_V2_ROUTER] of
    [constants.ts].  The codec follows the contract ABI: a four-byte
    selector, then one 32-byte big-endian head word per argument, the head
    of an [address[]] being the byte offset of its tail (length word and
    one word per element). *)

Module Abi.

(** A 20-byte account or contract identifier. *)
Definition Address : Type := Z.

Inductive ParamType : Type :=
| uint256
| address
| address_array.

(** Decoded argument values: [uint] is a bigint, [address] a checksummed
    string (here its value), [address[]] an array of those. *)
Inductive Value : Type :=
| VUint (z : Z)
| VAddress (a : Address)
| VAddressArray (l : list Address).

Record FunctionFragment : Type := mkFragment {
  name : string;
  selector : list byte;
  inputs : list ParamType
}.

(** The fragments of [ABIS.UNISWAP_V2_ROUTER], in source order; [uint] is
    [uint256].  Each selector is the first four bytes of the Keccak-256
    hash of the canonical signature. *)
Definition UNISWAP_V2_ROUTER : list FunctionFragment :=
  [ mkFragment "factory" [xc4; x5a; x01; x55] [];
    mkFragment "WETH" [xad; x5c; x46; x48] [];
    mkFragment "swapExactTokensForTokens" [x38; xed; x17; x39]
      [uint256; uint256; address_array; address; uint256];
    mkFragment "swapTokensForExactTokens" [x88; x03; xdb; xee]
      [uint256; uint256; address_array; address; uint256];
    mkFragment "swapExactAVAXForTokens" [xa2; xa1; x62; x3d]
      [uint256; address_array; address; uint256];
    mkFragment "swapTokensForExactAVAX" [x7a; x42; x41; x6a]
      [uint256; uint256; address_array; address; uint256];
    mkFragment "swapExactTokensForAVAX" [x67; x65; x28; xd1]
      [uint256; uint256; address_array; address; uint256];
    mkFragment "swapAVAXForExactTokens" [x8a; x65; x7e; x67]
      [uint256; address_array; address; uint256];
    mkFragment "getAmountsOut" [xd0; x6c; xa6; x1f] [uint256; address_array];
    mkFragment "getAmountsIn" [x1f; x00; xca; x74] [uint256; address_array] ].

Definition swapExactTokensForTokens_fragment : FunctionFragment :=
  mkFragment "swapExactTokensForTokens" [x38; xed; x17; x39]
    [uint256; uint256; address_array; address; uint256].

(** *** Words *)

Definition byte_of_Z (z : Z) : byte :=
  match Byte.of_N (Z.to_N z) with
  | Some b => b
  | None => x00
  end.

Definition Z_of_byte (b : byte) : Z := Z.of_N (Byte.to_N b).

(** The [n] low-order bytes of [z], most significant first. *)
Fixpoint be_bytes (n : nat) (z : Z) : list byte :=
  match n with
  | O => []
  | S n' => be_bytes n' (z / 256) ++ [byte_of_Z (z mod 256)]
  end.

Definition be_value (bs : list byte) : Z :=
  fold_left (fun acc b => acc * 256 + Z_of_byte b) bs 0.

Definition word (z : Z) : list byte := be_bytes 32 z.

Definition len {A} (l : list A) : Z := Z.of_nat (length l).

(** *** Encoding *)

Definition well_typed (ty : ParamType) (v : Value) : bool :=
  match ty, v with
  | uint256, VUint z => (0 <=? z) && (z <? 2 ^ 256)
  | address, VAddress a => (0 <=? a) && (a <? 2 ^ 160)
  | address_array, VAddressArray l =>
      forallb (fun a => (0 <=? a) && (a <? 2 ^ 160)) l
  | _, _ => false
  end.

Definition tail_of (v : Value) : list byte :=
  match v with
  | VAddressArray l => word (len l) ++ flat_map word l
  | _ => []
  end.

(** Heads and tails of the arguments [vs]; [off] is the byte offset at
    which the next tail starts. *)
Fixpoint encode_args (vs : list Value) (off : Z) : list byte * list byte :=
  match vs with
  | [] => ([], [])
  | v :: vs' =>
      match v with
      | VUint z | VAddress z =>
          let (h, t) := encode_args vs' off in (word z ++ h, t)
      | VAddressArray _ =>
          let (h, t) := encode_args vs' (off + len (tail_of v)) in
          (word off ++ h, tail_of v ++ t)
      end
  end.

Definition encode (vs : list Value) : list byte :=
  let (h, t) := encode_args vs (32 * len vs) in h ++ t.

Definition getFunction (iface : list FunctionFragment) (nm : string)
  : option FunctionFragment :=
  find (fun f => String.eqb (name f) nm) iface.

(** [iface.encodeFunctionData(name, args)]: throws on an unknown function
    and on arguments that do not fit the declared types. *)
Definition encodeFunctionData {S} (iface : list FunctionFragment)
    (nm : string) (args : list Value) : Js.M S (list byte) :=
  match getFunction iface nm with
  | None => Js.throw (ErrorObj "no matching fragment")
  | Some f =>
      if (length (inputs f) =? length args)%nat
         && forallb (fun p => well_typed (fst p) (snd p)) (zip (inputs f) args)
      then Js.ret (selector f ++ encode args)
      else Js.throw (ErrorObj "invalid argument")
  end.

(** *** Decoding *)

(** The 32-byte word at byte offset [off] of [body], if it is there. *)
Definition read_word (body : list byte) (off : Z) : option Z :=
  if (0 <=? off) && (off + 32 <=? len body)
  then Some (be_value (firstn 32 (skipn (Z.to_nat off) body)))
  else None.

(** The address in the word at [off].  A word of [2^160] or more is no
    address: it is refused here, where ethers keeps the error in the
    decoded result and throws it when that element is read. *)
Definition read_address (body : list byte) (off : Z) : option Address :=
  w ← read_word body off;
  if w <? 2 ^ 160 then Some w else None.

Definition decode_param (body : list byte) (ty : ParamType) (head : Z)
  : option Value :=
  match ty with
  | uint256 => VUint <$> read_word body head
  | address => VAddress <$> read_address body head
  | address_array =>
      off ← read_word body head;
      n ← read_word body off;
      if off + 32 + 32 * n <=? len body
      then VAddressArray <$>
             mapM (fun i : nat => read_address body (off + 32 + 32 * Z.of_nat i))
                  (seq 0 (Z.to_nat n))
      else None
  end.

Fixpoint decode_params (body : list byte) (tys : list ParamType) (head : Z)
  : option (list Value) :=
  match tys with
  | [] => Some []
  | ty :: tys' =>
      v ← decode_param body ty head;
      vs ← decode_params body tys' (head + 32);
      Some (v :: vs)
  end.

Fixpoint bytes_eqb (a b : list byte) : bool :=
  match a, b with
  | [], [] => true
  | x :: a', y :: b' => Byte.eqb x y && bytes_eqb a' b'
  | _, _ => false
  end.

(** What [iface.parseTransaction] returns: the fragment's name and the
    decoded arguments. *)
Record TransactionDescription : Type := mkDescription {
  td_name : string;
  td_args : list Value
}.

(** [iface.parseTransaction({ data })]: [null] when no fragment has the
    selector of [data], an exception when the arguments do not decode. *)
Definition parseTransaction {S} (iface : list FunctionFragment)
    (data : list byte) : Js.M S (option TransactionDescription) :=
  match find (fun f => bytes_eqb (selector f) (firstn 4 data)) iface with
  | None => Js.ret None
  | Some f =>
      match decode_params (skipn 4 data) (inputs f) 0 with
      | Some vs => Js.ret (Some (mkDescription (name f) vs))
      | None => Js.throw (ErrorObj "data out-of-bounds")
      end
  end.

End Abi.

(** ** [constants.ts] *)

Module Constants.

(** [CURRENT_NETWORK.rpcUrl] *)
Definition rpcUrl : string := "http://127.0.0.1:9650/ext/bc/C/rpc".

(** [TOKENS] *)
Definition WAVAX : Abi.Address := 0xB31f66AA3C1e785363F0875A1B74E27b85FD66c7.
Definition USDC : Abi.Address := 0xB97EF9Ef8734C71904D8002F8b6Bc66Dd9c48a6E.

(** [MEV_CONFIG] *)
Definition GAS_LIMIT : Z := 500000.
Definition REDIS_KEY_PREFIX : string := "mev:".
Definition MEMPOOL_TTL : Z := 300.
Definition FAST_SIMULATION : bool := true.

End Constants.

(** ** The Redis commands used by the listener

    A key holds a string or a list, with an optional time to live in
    seconds.  The model is a snapshot: the passage of time, which lowers
    the time to live and removes expired keys, happens between commands
    and is not part of it.  A stored string is represented by the value
    [V] whose JSON text it is.  [faults] schedules the failures of the
    coming commands (a closed or broken connection): each command consumes
    one entry, and fails without effect when that entry is [true].
    [history] is the log of the commands the server executed. *)

Module Redis.

Inductive command : Type :=
| SETEX (key : string) (seconds : Z)
| LPUSH (key : string) (element : string)
| LTRIM (key : string) (start stop : Z)
| KEYS (pattern : string)
| TTL (key : string)
| DEL (key : string).

Section Store.
Context {V : Type}.

Inductive value : Type :=
| RString (v : V)
| RList (items : list string).

Record entry : Type := mkEntry {
  content : value;
  expiry : option Z
}.

Record t : Type := mkRedis {
  db : gmap string entry;
  faults : list bool;
  history : list command
}.

Definition WRONGTYPE : Js.Thrown :=
  ErrorObj "WRONGTYPE Operation against a key holding the wrong kind of value".

(** A command [c] whose effect on the key space is [f]. *)
Definition run {A} (c : command)
    (f : gmap string entry -> Js.outcome A * gmap string entry) : Js.M t A :=
  fun r =>
    match faults r with
    | true :: fs => (Throw (ErrorObj "The client is closed"), mkRedis (db r) fs (history r))
    | fs =>
        let (o, d) := f (db r) in
        (o, mkRedis d (tail fs) (history r ++ [c]))
    end.

(** SETEX key seconds value *)
Definition setEx (key : string) (seconds : Z) (v : V) : Js.M t unit :=
  run (SETEX key seconds) (fun d =>
    if seconds <=? 0
    then (Throw (ErrorObj "ERR invalid expire time in 'setex' command"), d)
    else (Ok tt, <[key := mkEntry (RString v) (Some seconds)]> d)).

(** LPUSH key element: creates the list if the key is absent; the time
    to live of the key is untouched.  Returns the new length. *)
Definition lPush (key : string) (element : string) : Js.M t Z :=
  run (LPUSH key element) (fun d =>
    match d !! key with
    | None => (Ok 1, <[key := mkEntry (RList [element]) None]> d)
    | Some (mkEntry (RList l) e) =>
        (Ok (Z.of_nat (S (length l))), <[key := mkEntry (RList (element :: l)) e]> d)
    | Some (mkEntry (RString _) _) => (Throw WRONGTYPE, d)
    end).

(** The elements of [l] with indices [start..stop], negative indices
    counting from the end. *)
Definition range (l : list string) (start stop : Z) : list string :=
  let n := Z.of_nat (length l) in
  let start' := if start <? 0 then Z.max 0 (n + start) else start in
  let stop' := if stop <? 0 then n + stop else Z.min stop (n - 1) in
  if stop' <? start' then []
  else firstn (Z.to_nat (stop' - start' + 1)) (skipn (Z.to_nat start') l).

(** LTRIM key start stop: a list that becomes empty is removed. *)
Definition lTrim (key : string) (start stop : Z) : Js.M t unit :=
  run (LTRIM key start stop) (fun d =>
    match d !! key with
    | None => (Ok tt, d)
    | Some (mkEntry (RList l) e) =>
        match range l start stop with
        | [] => (Ok tt, delete key d)
        | l' => (Ok tt, <[key := mkEntry (RList l') e]> d)
        end
    | Some (mkEntry (RString _) _) => (Throw WRONGTYPE, d)
    end).

(** KEYS prefix*: [prefix] holds no glob character. *)
Definition keys (prefix : string) : Js.M t (list string) :=
  run (KEYS (prefix +:+ "*")) (fun d =>
    (Ok (List.filter (String.prefix prefix) (fst <$> map_to_list d)), d)).

(** TTL key: -2 for an absent key, -1 for a key without expiry. *)
Definition ttl_of (d : gmap string entry) (key : string) : Z :=
  match d !! key with
  | None => -2
  | Some e => match expiry e with None => -1 | Some s => s end
  end.

Definition ttl (key : string) : Js.M t Z :=
  run (TTL key) (fun d => (Ok (ttl_of d key), d)).

(** DEL key: the number of keys removed. *)
Definition del (key : string) : Js.M t Z :=
  run (DEL key) (fun d =>
    (Ok (match d !! key with Some _ => 1 | None => 0 end), delete key d)).

End Store.

Arguments value V : clear implicits.
Arguments entry V : clear implicits.
Arguments t V : clear implicits.

End Redis.

(** ** [mempool-listener.ts]: class [MempoolListener] *)

Module MempoolListener.

Import Js.

(** [ethers.TransactionResponse], the fields the listener reads. *)
Record TransactionResponse : Type := mkResponse {
  tx_hash : string;
  tx_from : Abi.Address;
  tx_to : option Abi.Address;
  tx_value : Z;
  tx_gasLimit : Z;
  tx_gasPrice : option Z;
  tx_maxFeePerGas : option Z;
  tx_maxPriorityFeePerGas : option Z;
  tx_nonce : Z;
  tx_data : list byte;
  tx_blockNumber : option Z
}.

Record DecodedCall : Type := mkDecodedCall {
  contractAddress : Abi.Address;
  functionName : string;
  args : list Abi.Value;
  isSwap : bool;
  tokenIn : option Abi.Address;
  tokenOut : option Abi.Address;
  amountIn : option string;
  amountOut : option string;
  path : option (list Abi.Address)
}.

Record EnrichedTransaction : Type := mkEnriched {
  hash : string;
  from : Abi.Address;
  to : option Abi.Address;
  value : string;
  gasLimit : string;
  gasPrice : string;
  maxFeePerGas : option string;
  maxPriorityFeePerGas : option string;
  nonce : Z;
  data : list byte;
  timestamp : Z;
  blockNumber : option Z;
  decodedCall : option DecodedCall
}.

(** The node the listener talks to: the clock ([Date.now()]) and
    [provider.getTransaction]. *)
Class Chain (W : Type) : Type := {
  now : W -> Z;
  getTransaction : string -> M W (option TransactionResponse)
}.

(** What an invocation of the handler did, in order. *)
Inductive Event : Type :=
| Fetched (txHash : string)
| Processed (txHash : string) (tx : EnrichedTransaction)
| Cleared.

(** The fields of the object, the node, and the log of events. *)
Record t (W : Type) : Type := mkListener {
  seenTxs : gset string;
  redisClient : Redis.t EnrichedTransaction;
  chain : W;
  events : list Event
}.
Arguments mkListener {W}.
Arguments seenTxs {W}.
Arguments redisClient {W}.
Arguments chain {W}.
Arguments events {W}.

(** [initializeDexInterfaces]: the routers share [routerInterface]. *)
Definition knownRouters : list Abi.Address :=
  [ 0x60aE616a2155Ee3d9A68541Ba4544862310933d4;
    0xE54Ca86531e17Ef3616d22Ca28b0D458b6C89106;
    0x1b02dA8Cb0d097eB8D57A175b88c7D8b47997506 ].

Definition dexInterfaces : gmap Z (list Abi.FunctionFragment) :=
  list_to_map ((fun router => (router, Abi.UNISWAP_V2_ROUTER)) <$> knownRouters).

(** [hay.includes(needle)] *)
Fixpoint includes (needle hay : string) : bool :=
  String.prefix needle hay ||
  match hay with
  | EmptyString => false
  | String _ hay' => includes needle hay'
  end.

(** [decoded.args[i].toString()] where the ABI types argument [i] as
    [uint]; a missing argument is a TypeError. *)
Definition uint_toString {S} (args : list Abi.Value) (i : nat) : M S string :=
  match args !! i with
  | Some (Abi.VUint z) => ret (toString z)
  | _ => throw (ErrorObj "Cannot read properties of undefined (reading 'toString')")
  end.

(** [decoded.args[i]] where the ABI types argument [i] as [address[]]. *)
Definition array_arg {S} (args : list Abi.Value) (i : nat) : M S (list Abi.Address) :=
  match args !! i with
  | Some (Abi.VAddressArray l) => ret l
  | _ => throw (ErrorObj "Cannot read properties of undefined (reading '0')")
  end.

(** [result[i]] on an ethers [Result]: an index outside of it is a
    RangeError. *)
Definition result_index {S} (l : list Abi.Address) (i : Z) : M S Abi.Address :=
  match (if 0 <=? i then l !! Z.to_nat i else None) with
  | Some a => ret a
  | None => throw (ErrorObj "out of result range")
  end.

Definition decodeTransaction {S} (contractAddress : Abi.Address) (data : list byte)
  : M S (option DecodedCall) :=
  try_catch
    (match dexInterfaces !! contractAddress with
     | None => ret None
     | Some iface =>
         bind (Abi.parseTransaction iface data) (fun decoded =>
         match decoded with
         | None => ret None
         | Some decoded =>
             let name := Abi.td_name decoded in
             let args := Abi.td_args decoded in
             let decodedCall :=
               mkDecodedCall contractAddress name args false None None None None None in
             if includes "swap" name then
               if String.eqb name "swapExactTokensForTokens" then
                 bind (uint_toString args 0) (fun amount =>
                 bind (array_arg args 2) (fun p =>
                 bind (result_index p 0) (fun tIn =>
                 bind (result_index p (Abi.len p - 1)) (fun tOut =>
                 ret (Some (mkDecodedCall contractAddress name args true
                              (Some tIn) (Some tOut) (Some amount) None (Some p)))))))
               else if String.eqb name "swapTokensForExactTokens" then
                 bind (uint_toString args 0) (fun amount =>
                 bind (array_arg args 2) (fun p =>
                 bind (result_index p 0) (fun tIn =>
                 bind (result_index p (Abi.len p - 1)) (fun tOut =>
                 ret (Some (mkDecodedCall contractAddress name args true
                              (Some tIn) (Some tOut) None (Some amount) (Some p)))))))
               else
                 ret (Some (mkDecodedCall contractAddress name args true
                              None None None None None))
             else ret (Some decodedCall)
         end)
     end)
    (fun _ => ret None).

Definition enrichTransaction {S} (clock : Z) (tx : TransactionResponse)
  : M S EnrichedTransaction :=
  let enriched :=
    mkEnriched (tx_hash tx) (tx_from tx) (tx_to tx)
      (toString (tx_value tx))
      (toString (tx_gasLimit tx))
      (match tx_gasPrice tx with Some p => toString p | None => "0" end)
      (toString <$> tx_maxFeePerGas tx)
      (toString <$> tx_maxPriorityFeePerGas tx)
      (tx_nonce tx)
      (tx_data tx)
      clock
      (match tx_blockNumber tx with Some 0 => None | b => b end) in
  match tx_to tx with
  | Some recipient =>
      match dexInterfaces !! recipient with
      | Some _ =>
          bind (decodeTransaction recipient (tx_data tx)) (fun d =>
          ret (enriched d))
      | None => ret (enriched None)
      end
  | None => ret (enriched None)
  end.

(** [JSON.stringify(tx)]: a bigint anywhere in the value is a TypeError.
    The only bigints of an enriched transaction are the [uint] arguments
    kept in [decodedCall.args].  The text produced is represented by the
    transaction itself. *)
Definition is_bigint (v : Abi.Value) : bool :=
  match v with
  | Abi.VUint _ => true
  | _ => false
  end.

Definition JSON_stringify {S} (tx : EnrichedTransaction) : M S EnrichedTransaction :=
  match decodedCall tx with
  | Some d =>
      if existsb is_bigint (args d)
      then throw (ErrorObj "Do not know how to serialize a BigInt")
      else ret tx
  | None => ret tx
  end.

Definition is_swap (tx : EnrichedTransaction) : bool :=
  match decodedCall tx with
  | Some d => isSwap d
  | None => false
  end.

Definition tx_key (h : string) : string := Constants.REDIS_KEY_PREFIX +:+ "tx:" +:+ h.
Definition swap_key (h : string) : string := Constants.REDIS_KEY_PREFIX +:+ "swaps:" +:+ h.
Definition swap_queue : string := Constants.REDIS_KEY_PREFIX +:+ "swap_queue".

Definition storeTransaction (tx : EnrichedTransaction)
  : M (Redis.t EnrichedTransaction) unit :=
  try_catch
    (let key := tx_key (hash tx) in
     bind (JSON_stringify tx) (fun json =>
     bind (Redis.setEx key Constants.MEMPOOL_TTL json) (fun _ =>
     if is_swap tx then
       let swapKey := swap_key (hash tx) in
       bind (JSON_stringify tx) (fun json' =>
       bind (Redis.setEx swapKey Constants.MEMPOOL_TTL json') (fun _ =>
       bind (Redis.lPush swap_queue (hash tx)) (fun _ =>
       Redis.lTrim swap_queue 0 999)))
     else ret tt)))
    (fun _ => ret tt).

Fixpoint cleanup_loop (keys : list string) (cleanedCount : Z)
  : M (Redis.t EnrichedTransaction) Z :=
  match keys with
  | [] => ret cleanedCount
  | key :: rest =>
      bind (Redis.ttl key) (fun ttl =>
      if (ttl =? -1) || (ttl <=? 0) then
        bind (Redis.del key) (fun _ =>
        cleanup_loop rest (number_add cleanedCount 1))
      else cleanup_loop rest cleanedCount)
  end.

Definition cleanupOldEntries : M (Redis.t EnrichedTransaction) unit :=
  try_catch
    (bind (Redis.keys Constants.REDIS_KEY_PREFIX) (fun keys =>
     bind (cleanup_loop keys 0) (fun _ => ret tt)))
    (fun _ => ret tt).

Section Handler.
Context {W : Type} `{Chain W}.

Definition on_chain {A} (m : M W A) : M (t W) A :=
  fun s => let (o, w) := m (chain s) in
           (o, mkListener (seenTxs s) (redisClient s) w (events s)).

Definition on_redis {A} (m : M (Redis.t EnrichedTransaction) A) : M (t W) A :=
  fun s => let (o, r) := m (redisClient s) in
           (o, mkListener (seenTxs s) r (chain s) (events s)).

Definition emit (e : Event) : M (t W) unit :=
  modify (fun s => mkListener (seenTxs s) (redisClient s) (chain s) (events s ++ [e])).

Definition set_seen (f : gset string -> gset string) : M (t W) unit :=
  modify (fun s => mkListener (f (seenTxs s)) (redisClient s) (chain s) (events s)).

(** The times taken for the log line ([startTime], [processingTime])
    are read from the clock without effect and are left out. *)
Definition handlePendingTransaction (txHash : string) : M (t W) unit :=
  try_catch
    (bind get (fun s =>
     if bool_decide (txHash ∈ seenTxs s) then ret tt
     else
       bind (emit (Fetched txHash)) (fun _ =>
       bind (on_chain (getTransaction txHash)) (fun tx =>
       match tx with
       | None => ret tt
       | Some tx =>
           bind (set_seen (fun seen => {[txHash]} ∪ seen)) (fun _ =>
           bind get (fun s1 =>
           bind (pure_call (enrichTransaction (now (chain s1)) tx)) (fun enrichedTx =>
           bind (emit (Processed txHash enrichedTx)) (fun _ =>
           bind (on_redis (storeTransaction enrichedTx)) (fun _ =>
           bind get (fun s2 =>
           if 10000 <? Z.of_nat (size (seenTxs s2))
           then bind (set_seen (fun _ => ∅)) (fun _ => emit Cleared)
           else ret tt))))))
       end))))
    (fun _ => ret tt).

(** The handler on each delivered hash in turn, each invocation running to
    its return before the next hash is delivered.  Invocations that start
    while others are suspended are those of [InterleavedListener]. *)
Fixpoint deliver (txHashes : list string) : M (t W) unit :=
  match txHashes with
  | [] => ret tt
  | h :: rest => bind (handlePendingTransaction h) (fun _ => deliver rest)
  end.

End Handler.

(** The listener after its constructor, connected to an empty cache. *)
Definition initial {W} (w : W) : t W :=
  mkListener ∅ (Redis.mkRedis ∅ [] []) w [].

End MempoolListener.

(** ** The pending-transaction handler, invocation by invocation

    The subscription [wsProvider.on("pending", async (txHash) => ...)]
    starts an invocation of the handler for every pending hash and does
    not wait for the invocations it started before: an invocation runs
    until its next [await], where it is suspended, and whatever the event
    loop takes up next runs meanwhile, another pending hash or another
    suspended invocation.  The order is the event loop's; the model admits
    every order. *)

Module InterleavedListener.

Import Js MempoolListener.

(** *** Asynchronous functions *)

Section Asynchronous.
Context {St : Type}.

(** A call of an asynchronous function has finished, returning or
    throwing, in the state [s]; or it is suspended at an [await], having
    left the state [s], and goes on from the state that it finds when it
    is resumed. *)
Inductive Run (A : Type) : Type :=
| Finished (o : outcome A) (s : St)
| Paused (s : St) (resume : St -> Run A).
Arguments Finished {A} o s.
Arguments Paused {A} s resume.

Definition Co (A : Type) : Type := St -> Run A.

(** Code without an [await]. *)
Definition lift {A} (m : M St A) : Co A :=
  fun s => let (o, s') := m s in Finished o s'.

Fixpoint bind_run {A B} (r : Run A) (f : A -> Co B) : Run B :=
  match r with
  | Finished (Ok a) s => f a s
  | Finished (Throw e) s => Finished (Throw e) s
  | Paused s resume => Paused s (fun s' => bind_run (resume s') f)
  end.

Definition co_bind {A B} (c : Co A) (f : A -> Co B) : Co B :=
  fun s => bind_run (c s) f.

Fixpoint catch_run {A} (r : Run A) (handler : Thrown -> Co A) : Run A :=
  match r with
  | Finished (Ok a) s => Finished (Ok a) s
  | Finished (Throw e) s => handler e s
  | Paused s resume => Paused s (fun s' => catch_run (resume s') handler)
  end.

(** [try { body } catch (error) { handler }] around code with [await]s. *)
Definition co_try_catch {A} (body : Co A) (handler : Thrown -> Co A) : Co A :=
  fun s => catch_run (body s) handler.

Fixpoint settled_later {A} (r : Run A) : Run A :=
  match r with
  | Finished o s => Paused s (Finished o)
  | Paused s resume => Paused s (fun s' => settled_later (resume s'))
  end.

(** [await operation()]: the operation is called at once and runs as far
    as it gets; the caller is suspended, and receives what the operation
    returned or threw when it is resumed after the operation has
    finished. *)
Definition await {A} (operation : Co A) : Co A :=
  fun s => settled_later (operation s).

(** The call when nothing else runs meanwhile: every suspension is
    resumed in the state it left. *)
Fixpoint complete {A} (r : Run A) : outcome A * St :=
  match r with
  | Finished o s => (o, s)
  | Paused s resume => complete (resume s)
  end.

End Asynchronous.

Arguments Run St A : clear implicits.
Arguments Co St A : clear implicits.
Arguments Finished {St A} o s.
Arguments Paused {St A} s resume.

Section Handler.
Context {W : Type} `{Chain W}.

(** [storeTransaction], suspended at each command sent to the cache.  The
    cache executes the commands in the order in which they are sent. *)
Definition storeTransaction (tx : EnrichedTransaction) : Co (t W) unit :=
  co_try_catch
    (let key := tx_key (hash tx) in
     co_bind (lift (JSON_stringify tx)) (fun json =>
     co_bind (await (lift (on_redis
                (Redis.setEx key Constants.MEMPOOL_TTL json)))) (fun _ =>
     if is_swap tx then
       let swapKey := swap_key (hash tx) in
       co_bind (lift (JSON_stringify tx)) (fun json' =>
       co_bind (await (lift (on_redis
                  (Redis.setEx swapKey Constants.MEMPOOL_TTL json')))) (fun _ =>
       co_bind (await (lift (on_redis
                  (Redis.lPush swap_queue (hash tx))))) (fun _ =>
       await (lift (on_redis (Redis.lTrim swap_queue 0 999))))))
     else lift (ret tt))))
    (fun _ => lift (ret tt)).

(** [handlePendingTransaction], suspended at its three [await]s: of
    [provider.getTransaction], of [enrichTransaction] and of
    [storeTransaction]. *)
Definition handlePendingTransaction (txHash : string) : Co (t W) unit :=
  co_try_catch
    (co_bind (lift get) (fun s =>
     if bool_decide (txHash ∈ seenTxs s) then lift (ret tt)
     else
       co_bind (lift (emit (Fetched txHash))) (fun _ =>
       co_bind (await (lift (on_chain (getTransaction txHash)))) (fun tx =>
       match tx with
       | None => lift (ret tt)
       | Some tx =>
           co_bind (lift (set_seen (fun seen => {[txHash]} ∪ seen))) (fun _ =>
           co_bind (lift get) (fun s1 =>
           co_bind (await (lift (pure_call
                      (enrichTransaction (now (chain s1)) tx)))) (fun enrichedTx =>
           co_bind (lift (emit (Processed txHash enrichedTx))) (fun _ =>
           co_bind (await (storeTransaction enrichedTx)) (fun _ =>
           co_bind (lift get) (fun s2 =>
           if 10000 <? Z.of_nat (size (seenTxs s2))
           then lift (bind (set_seen (fun _ => ∅)) (fun _ => emit Cleared))
           else lift (ret tt)))))))
       end))))
    (fun _ => lift (ret tt)).

(** *** The event loop *)

(** A suspended invocation: its hash and what is left of it. *)
Record Invocation : Type := mkInvocation {
  txHash_of : string;
  rest_of : t W -> Run (t W) unit
}.

(** The listener, the suspended invocations, and for each invocation that
    has returned, in order, its hash and the size of the dedup set when
    it returned. *)
Record EventLoop : Type := mkLoop {
  listener : t W;
  suspended : list Invocation;
  returned : list (string * nat)
}.

(** What the event loop takes up next: a pending hash, for which it
    starts an invocation, or the suspended invocation number [i]. *)
Inductive Turn : Type :=
| Pending (txHash : string)
| Resume (i : nat).

(** The event loop after the invocation on [txHash] has run up to [r]. *)
Definition ran (txHash : string) (r : Run (t W) unit)
    (others : list Invocation) (done : list (string * nat)) : EventLoop :=
  match r with
  | Finished _ s => mkLoop s others (done ++ [(txHash, size (seenTxs s))])
  | Paused s resume => mkLoop s (others ++ [mkInvocation txHash resume]) done
  end.

Definition step (turn : Turn) (l : EventLoop) : option EventLoop :=
  match turn with
  | Pending txHash =>
      Some (ran txHash (handlePendingTransaction txHash (listener l))
              (suspended l) (returned l))
  | Resume i =>
      match suspended l !! i with
      | Some invocation =>
          Some (ran (txHash_of invocation) (rest_of invocation (listener l))
                  (delete i (suspended l)) (returned l))
      | None => None
      end
  end.

Fixpoint run (turns : list Turn) (l : EventLoop) : option EventLoop :=
  match turns with
  | [] => Some l
  | turn :: rest =>
      match step turn l with
      | Some l' => run rest l'
      | None => None
      end
  end.

(** No pending hash is taken up while an invocation is suspended. *)
Fixpoint one_at_a_time (turns : list Turn) (l : EventLoop) : bool :=
  match turns with
  | [] => true
  | turn :: rest =>
      match turn with
      | Pending _ => bool_decide (suspended l = [])
      | Resume _ => true
      end
      && match step turn l with
         | Some l' => one_at_a_time rest l'
         | None => true
         end
  end.

(** The event loop of the listener as constructed. *)
Definition started (w : W) : EventLoop := mkLoop (initial w) [] [].

End Handler.

Arguments Invocation W : clear implicits.
Arguments EventLoop W : clear implicits.

End InterleavedListener.

(** ** [bundle-simulator.ts]: class [BundleSimulator] *)

Module BundleSimulator.

Import Js.

(** [ethers.TransactionRequest], the fields the bundles of this
    repository set. *)
Record TransactionRequest : Type := mkRequest {
  to : option Abi.Address;
  value : option BigNumberish;
  data : list byte;
  gasLimit : option BigNumberish
}.

Record TransactionBundle : Type := mkBundle {
  transactions : list TransactionRequest;
  expectedProfit : string;
  description : string
}.

Record SimulationResult : Type := mkResult {
  success : bool;
  gasUsed : Z;
  profit : string;
  error : option string;
  executionTime : Z
}.

(** The object handed to [testWallet.sendTransaction]:
    [{...tx, nonce, gasLimit, gasPrice}]. *)
Record SentRequest : Type := mkSent {
  sent_tx : TransactionRequest;
  sent_nonce : Z;
  sent_gasLimit : BigNumberish;
  sent_gasPrice : Z
}.

(** [ethers.TransactionReceipt]: [status] is [null] or a number,
    [gasUsed] a bigint. *)
Record Receipt : Type := mkReceipt {
  status : option Z;
  receipt_gasUsed : Z
}.

(** [ethers.FeeData]: [gasPrice] is [null] or a bigint. *)
Record FeeData : Type := mkFeeData {
  fee_gasPrice : option Z
}.

(** The outside of the simulator: the clock and timers, the sandbox
    behind [simulationProvider] (with the test wallet), and the real
    chain behind [mainProvider].  A sent transaction is identified by
    its hash. *)
Class Sandbox (W : Type) : Type := {
  now : W -> Z;
  sleep : Z -> M W unit;
  getBalance : Abi.Address -> M W Z;
  getTransactionCount : Abi.Address -> M W Z;
  getFeeData : M W FeeData;
  sendTransaction : SentRequest -> M W string;
  wait : string -> M W (option Receipt);
  send : string -> list Json -> M W Json;
  getBlockNumber : M W Z
}.

(** What the simulator asked of the outside and what it saw, in order:
    the transaction count read at the start of a bundle, each request
    handed to [sendTransaction] with the fee data it was built from, each
    receipt that [wait] returned, each raw JSON-RPC call. *)
Inductive Event : Type :=
| NonceSeen (transactionCount : Z)
| Sent (feeData : FeeData) (request : SentRequest)
| ReceiptSeen (receipt : option Receipt)
| Rpc (method : string) (params : list Json).

Record t (W : Type) : Type := mkSimulator {
  simulationProvider : option string;
  forkBlockNumber : option Z;
  world : W;
  events : list Event
}.
Arguments mkSimulator {W}.
Arguments simulationProvider {W}.
Arguments forkBlockNumber {W}.
Arguments world {W}.
Arguments events {W}.

(** The address of the default Anvil key held by [testWallet]. *)
Definition testWallet : Abi.Address := 0xf39Fd6e51aad88F6F4ce6aB8827279cffFb92266.

(** [ethers.parseUnits("25", "gwei")] and [ethers.parseEther(x)] for a
    whole number [x] of tokens. *)
Definition gwei25 : Z := 25 * 10 ^ 9.
Definition parseEther (whole : Z) : Z := whole * 10 ^ 18.

(** The [--balance] argument of [startAnvilFork], in whole tokens. *)
Definition anvilBalance : Z := 1000000.

(** The arguments [startAnvilFork] launches the sandbox with. *)
Definition anvilArgs (forkBlockNumber port : Z) : list string :=
  [ "--fork-url"; Constants.rpcUrl;
    "--fork-block-number"; toString (number_sub forkBlockNumber 2);
    "--port"; toString port;
    "--host"; "127.0.0.1";
    "--accounts"; "10";
    "--balance"; toString anvilBalance;
    "--gas-limit"; "30000000";
    "--gas-price"; "0";
    "--base-fee"; "0";
    "--auto-impersonate" ].

(** [feeData.gasPrice || ethers.parseUnits("25", "gwei")]: [null] and
    [0n] are falsy. *)
Definition gas_price_of (feeData : FeeData) : Z :=
  match fee_gasPrice feeData with
  | Some p => if p =? 0 then gwei25 else p
  | None => gwei25
  end.

(** [tx.gasLimit || MEV_CONFIG.GAS_LIMIT] *)
Definition gas_limit_of (tx : TransactionRequest) : BigNumberish :=
  match gasLimit tx with
  | Some g => if truthy (Some g) then g else BnNumber Constants.GAS_LIMIT
  | None => BnNumber Constants.GAS_LIMIT
  end.

(** The request built for the transaction at index [i]. *)
Definition build_request (tx : TransactionRequest) (currentNonce : Z) (i : nat)
    (feeData : FeeData) : SentRequest :=
  mkSent tx (number_add currentNonce (Z.of_nat i)) (gas_limit_of tx)
         (gas_price_of feeData).

Section Simulator.
Context {W : Type} `{Sandbox W}.

Definition on_world {A} (m : M W A) : M (t W) A :=
  fun s => let (o, w) := m (world s) in
           (o, mkSimulator (simulationProvider s) (forkBlockNumber s) w (events s)).

Definition emit (e : Event) : M (t W) unit :=
  modify (fun s => mkSimulator (simulationProvider s) (forkBlockNumber s)
                               (world s) (events s ++ [e])).

Definition clock : M (t W) Z := fun s => (Ok (now (world s)), s).

(** The loop over [bundle.transactions], from index [i] on. *)
Fixpoint execute (txs : list TransactionRequest) (i : nat) (currentNonce : Z)
    (totalGasUsed : Z) (totalGasCost : Z) : M (t W) (Z * Z) :=
  match txs with
  | [] => ret (totalGasUsed, totalGasCost)
  | tx :: rest =>
      bind (on_world getFeeData) (fun feeData =>
      let gasPrice := gas_price_of feeData in
      let request := build_request tx currentNonce i feeData in
      bind (emit (Sent feeData request)) (fun _ =>
      bind (on_world (sendTransaction request)) (fun txResponse =>
      bind (on_world (wait txResponse)) (fun receipt =>
      bind (emit (ReceiptSeen receipt)) (fun _ =>
      match receipt with
      | None =>
          throw (ErrorObj ("Transaction " +:+ toString (number_add (Z.of_nat i) 1)
                           +:+ " failed - no receipt"))
      | Some r =>
          match status r with
          | Some 0 =>
              throw (ErrorObj ("Transaction " +:+ toString (number_add (Z.of_nat i) 1)
                               +:+ " reverted"))
          | _ =>
              let gasUsed := Number_of_bigint (receipt_gasUsed r) in
              let gasCost := BigInt_of_number gasUsed * gasPrice in
              execute rest (S i) currentNonce
                      (number_add totalGasUsed gasUsed) (totalGasCost + gasCost)
          end
      end)))))
  end.

(** [for (const tx of bundle.transactions) if (tx.value)
    calculatedProfit -= BigInt(tx.value)] *)
Fixpoint subtract_values (txs : list TransactionRequest) (calculatedProfit : Z)
  : M (t W) Z :=
  match txs with
  | [] => ret calculatedProfit
  | tx :: rest =>
      match value tx with
      | Some v =>
          if truthy (Some v)
          then bind (BigInt v) (fun b => subtract_values rest (calculatedProfit - b))
          else subtract_values rest calculatedProfit
      | None => subtract_values rest calculatedProfit
      end
  end.

Definition fast_profit (bundle : TransactionBundle) (totalGasCost : Z) : M (t W) Z :=
  bind (subtract_values (transactions bundle) (0 - totalGasCost)) (fun calculatedProfit =>
  if negb (String.eqb (expectedProfit bundle) "")
     && negb (String.eqb (expectedProfit bundle) "0")
  then bind (BigInt (BnString (expectedProfit bundle))) (fun e =>
       ret (calculatedProfit + e))
  else ret calculatedProfit).

Definition precise_profit (initialBalance : Z) : M (t W) Z :=
  bind (on_world (sleep 100)) (fun _ =>
  bind (on_world (getBalance testWallet)) (fun finalBalance =>
  ret (finalBalance - initialBalance))).

Definition simulateBundle (bundle : TransactionBundle) (fastMode : bool)
  : M (t W) SimulationResult :=
  bind get (fun s =>
  match simulationProvider s with
  | None => throw (ErrorObj "Simulation provider not initialized")
  | Some _ =>
      bind clock (fun startTime =>
      try_catch
        (bind (on_world (getBalance testWallet)) (fun initialBalance =>
         bind (on_world (getTransactionCount testWallet)) (fun currentNonce =>
         bind (emit (NonceSeen currentNonce)) (fun _ =>
         bind (execute (transactions bundle) 0 currentNonce 0 0) (fun totals =>
         let (totalGasUsed, totalGasCost) := totals in
         bind (if fastMode then fast_profit bundle totalGasCost
               else precise_profit initialBalance) (fun profit =>
         bind clock (fun endTime =>
         ret (mkResult true totalGasUsed (toString profit) None
                       (number_sub endTime startTime)))))))))
        (fun error =>
         bind clock (fun endTime =>
         ret (mkResult false 0 "0" (Some (message_of error))
                       (number_sub endTime startTime)))))
  end).

(** [simulateBundle(bundle)]: [fastMode] defaults to
    [MEV_CONFIG.FAST_SIMULATION]. *)
Definition simulateBundle_default (bundle : TransactionBundle)
  : M (t W) SimulationResult :=
  simulateBundle bundle Constants.FAST_SIMULATION.

Definition rpc (method : string) (params : list Json) : M (t W) Json :=
  bind (emit (Rpc method params)) (fun _ => on_world (send method params)).

Definition set_forkBlockNumber (b : Z) : M (t W) unit :=
  modify (fun s => mkSimulator (simulationProvider s) (Some b) (world s) (events s)).

(** The parameter of [anvil_reset] in object form. *)
Definition forking (jsonRpcUrl : string) (blockNumber : Z) : Json :=
  JObject [("forking", JObject [("jsonRpcUrl", JString jsonRpcUrl);
                                ("blockNumber", JNumber blockNumber)])].

Definition resetFork : M (t W) unit :=
  bind get (fun s =>
  match simulationProvider s with
  | None => throw (ErrorObj "Simulation provider not initialized")
  | Some _ =>
      bind (on_world getBlockNumber) (fun latestBlock =>
      bind (rpc "anvil_reset"
                [forking Constants.rpcUrl (number_sub latestBlock 2)]) (fun _ =>
      bind (set_forkBlockNumber (number_sub latestBlock 2)) (fun _ =>
      bind (rpc "anvil_setBalance"
                [JString "0xf39Fd6e51aad88F6F4ce6aB8827279cffFb92266";
                 JString (toString (parseEther 1000000))]) (fun _ =>
      ret tt))))
  end).

End Simulator.

End BundleSimulator.

(** ** The earlier copy of the simulator class

    The second source file that declares [BundleSimulator].  Its
    [resetFork] is the one that differs from [bundle-simulator.ts]. *)

Module EarlierBundleSimulator.

Import Js BundleSimulator.

Section Simulator.
Context {W : Type} `{Sandbox W}.

Definition resetFork : M (t W) unit :=
  bind get (fun s =>
  match simulationProvider s with
  | None => throw (ErrorObj "Simulation provider not initialized")
  | Some _ =>
      bind (on_world getBlockNumber) (fun latestBlock =>
      bind (rpc "anvil_reset"
                [JString Constants.rpcUrl; JNumber (number_sub latestBlock 2)]) (fun _ =>
      bind (set_forkBlockNumber (number_sub latestBlock 2)) (fun _ =>
      ret tt)))
  end).

End Simulator.

End EarlierBundleSimulator.

(** ** Concrete outsides, for running the embedding

    [PlainNode] is a chain node that knows every hash as a plain transfer
    of one token between two externally owned accounts; its state is the
    clock.  [ScriptedSandbox] is a sandbox whose answers are fixed in
    advance. *)

Module PlainNode.

Import Js MempoolListener.

Definition transfer (h : string) : TransactionResponse :=
  mkResponse h 0xf39Fd6e51aad88F6F4ce6aB8827279cffFb92266
    (Some 0x70997970C51812dc3A010C7d01b50e0d17dc79C8)
    (10 ^ 18) 21000 (Some (25 * 10 ^ 9)) None None 7 [] None.

#[global] Instance plain_chain : Chain Z := {
  now := fun w => w;
  getTransaction := fun h => ret (Some (transfer h))
}.

(** A swap through TraderJoe: [swapExactTokensForTokens(10^18, 0,
    [WAVAX, USDC], to, 1700000000)] in the calldata [swap_calldata]. *)
Definition swap_args : list Abi.Value :=
  [ Abi.VUint (10 ^ 18); Abi.VUint 0;
    Abi.VAddressArray [Constants.WAVAX; Constants.USDC];
    Abi.VAddress 0xf39Fd6e51aad88F6F4ce6aB8827279cffFb92266;
    Abi.VUint 1700000000 ].

Definition swap_calldata : list byte :=
  [x38; xed; x17; x39] ++ Abi.encode swap_args.

Definition swap_response (h : string) : TransactionResponse :=
  mkResponse h 0xf39Fd6e51aad88F6F4ce6aB8827279cffFb92266
    (Some 0x60aE616a2155Ee3d9A68541Ba4544862310933d4)
    0 300000 (Some (25 * 10 ^ 9)) None None 8 swap_calldata None.

(** An enriched transaction whose decoded call is a swap without
    arguments: one that [JSON.stringify] accepts. *)
Definition bare_swap (h : string) : EnrichedTransaction :=
  mkEnriched h 0xf39Fd6e51aad88F6F4ce6aB8827279cffFb92266
    (Some 0x60aE616a2155Ee3d9A68541Ba4544862310933d4)
    (toString 0) (toString 300000) (toString (25 * 10 ^ 9)) None None 8 [] 0 None
    (Some (mkDecodedCall 0x60aE616a2155Ee3d9A68541Ba4544862310933d4 "swap" [] true
             None None None None None)).

(** The pending-transaction hash number [n], in the 66-character form
    of the node. *)
Definition hex_digit (d : Z) : ascii :=
  ascii_of_nat (Z.to_nat (if d <? 10 then 48 + d else 87 + d)).

Fixpoint hex_digits (n : nat) (z : Z) (acc : string) : string :=
  match n with
  | O => acc
  | S n' => hex_digits n' (z / 16) (String (hex_digit (z mod 16)) acc)
  end.

Definition tx_hash_of (n : nat) : string :=
  "0x" +:+ hex_digits 64 (Z.of_nat n) "".

(** The first [n] hashes, delivered in order. *)
Definition burst (n : nat) : list string := tx_hash_of <$> seq 0 n.

(** What [enrichTransaction] makes of [transfer h] at time [clock]. *)
Definition enriched_transfer (clock : Z) (h : string) : EnrichedTransaction :=
  mkEnriched h 0xf39Fd6e51aad88F6F4ce6aB8827279cffFb92266
    (Some 0x70997970C51812dc3A010C7d01b50e0d17dc79C8)
    (toString (10 ^ 18)) (toString 21000) (toString (25 * 10 ^ 9))
    None None 7 [] clock None None.

(** How often the handler processed the hash [h], and how often the cache
    executed [SETEX key]. *)
Definition processed_count (h : string) (evs : list Event) : nat :=
  length (List.filter (fun e => match e with
                                | Processed h' _ => String.eqb h h'
                                | _ => false
                                end) evs).

Definition setex_count (key : string) (cs : list Redis.command) : nat :=
  length (List.filter (fun c => match c with
                                | Redis.SETEX key' _ => String.eqb key key'
                                | _ => false
                                end) cs).

End PlainNode.

(** Schedules on the plain node. *)

Module PlainEvents.

Import InterleavedListener PlainNode.

(** The invocation on [h] from start to return, with nothing else in
    between: it is resumed after [getTransaction], after
    [enrichTransaction], after SETEX and after [storeTransaction]. *)
Definition alone (h : string) : list Turn :=
  [Pending h; Resume 0; Resume 0; Resume 0; Resume 0].

(** The first [n] hashes one at a time; then the hash number [n] arrives
    and its invocation gets as far as sending SETEX to the cache; while
    it waits for the answer of the cache, the hash number 0 arrives once
    more. *)
Definition overlapping (n : nat) : list Turn :=
  flat_map alone (burst n)
  ++ [Pending (tx_hash_of n); Resume 0; Resume 0; Pending (tx_hash_of 0)].

End PlainEvents.

Module ScriptedSandbox.

Import Js BundleSimulator.

(** The clock, the wallet's balance and transaction count, the fee data,
    the answers of the coming [wait] calls, and the head block of the
    real chain. *)
Record t : Type := mkSandbox {
  time : Z;
  balance : Z;
  transactionCount : Z;
  feeData : FeeData;
  receipts : list (option Receipt);
  headBlock : Z
}.

Definition tick (ms : Z) (w : t) : t :=
  mkSandbox (time w + ms) (balance w) (transactionCount w) (feeData w)
            (receipts w) (headBlock w).

#[global] Instance scripted_sandbox : Sandbox t := {
  now := time;
  sleep := fun ms => modify (tick ms);
  getBalance := fun _ w => (Ok (balance w), w);
  getTransactionCount := fun _ w => (Ok (transactionCount w), w);
  getFeeData := fun w => (Ok (feeData w), w);
  sendTransaction := fun _ w => (Ok "0x01", tick 1 w);
  wait := fun _ w =>
    match receipts w with
    | [] => (Throw (ErrorObj "timeout"), w)
    | r :: rest =>
        (Ok r, mkSandbox (time w + 2) (balance w) (transactionCount w)
                         (feeData w) rest (headBlock w))
    end;
  send := fun _ _ => ret JNull;
  getBlockNumber := fun w => (Ok (headBlock w), w)
}.

(** A started simulator on the sandbox [w]. *)
Definition started (w : t) : BundleSimulator.t t :=
  mkSimulator (Some "http://127.0.0.1:8545") (Some (headBlock w)) w [].

(** One token sent to the TraderJoe router, then a call without value. *)
Definition two_transactions : TransactionBundle :=
  mkBundle
    [ mkRequest (Some 0x60aE616a2155Ee3d9A68541Ba4544862310933d4)
                (Some (BnBigInt (10 ^ 18))) [] (Some (BnNumber 300000));
      mkRequest (Some 0xB97EF9Ef8734C71904D8002F8b6Bc66Dd9c48a6E)
                (Some (BnNumber 0)) [] None ]
    "10000000000000000"
    "two transactions".

Definition both_succeed : t :=
  mkSandbox 1000 (parseEther 1000000) 5 (mkFeeData (Some 0))
    [Some (mkReceipt (Some 1) 120000); Some (mkReceipt (Some 1) 46000)] 1000.

Definition second_reverts : t :=
  mkSandbox 1000 (parseEther 1000000) 5 (mkFeeData (Some (30 * 10 ^ 9)))
    [Some (mkReceipt (Some 1) 120000); Some (mkReceipt (Some 0) 30000)] 1000.

End ScriptedSandbox.

(** [RecordingSandbox] is the scripted sandbox together with the requests
    that reached [sendTransaction], oldest first. *)

Module RecordingSandbox.

Import Js BundleSimulator.

Record t : Type := mkRecording {
  scripted : ScriptedSandbox.t;
  mempool : list SentRequest
}.

(** A call of the scripted sandbox, which leaves the mempool alone. *)
Definition on_scripted {A} (m : M ScriptedSandbox.t A) : M t A :=
  fun w => let (o, w') := m (scripted w) in (o, mkRecording w' (mempool w)).

#[global] Instance recording_sandbox : Sandbox t := {
  now := fun w => now (scripted w);
  sleep := fun ms => on_scripted (sleep ms);
  getBalance := fun a => on_scripted (getBalance a);
  getTransactionCount := fun a => on_scripted (getTransactionCount a);
  getFeeData := on_scripted getFeeData;
  sendTransaction := fun request w =>
    let (o, w') := sendTransaction request (scripted w) in
    (o, mkRecording w' (mempool w ++ [request]));
  wait := fun txResponse => on_scripted (wait txResponse);
  send := fun method params => on_scripted (send method params);
  getBlockNumber := on_scripted getBlockNumber
}.

(** A started simulator on the scripted sandbox [w] with an empty mempool. *)
Definition started (w : ScriptedSandbox.t) : BundleSimulator.t t :=
  mkSimulator (Some "http://127.0.0.1:8545") (Some (ScriptedSandbox.headBlock w))
              (mkRecording w []) [].

End RecordingSandbox.

(** ** Observations on the simulator's log, and the quantities of the
    profit formula *)

Module Observations.

Import Js BundleSimulator.

Definition sent_of (evs : list Event) : list (FeeData * SentRequest) :=
  omap (fun e => match e with Sent fd r => Some (fd, r) | _ => None end) evs.

Definition receipts_of (evs : list Event) : list (option Receipt) :=
  omap (fun e => match e with ReceiptSeen r => Some r | _ => None end) evs.

Definition nonces_of (evs : list Event) : list Z :=
  omap (fun e => match e with NonceSeen n => Some n | _ => None end) evs.

Definition rpcs_of (evs : list Event) : list (string * list Json) :=
  omap (fun e => match e with Rpc m ps => Some (m, ps) | _ => None end) evs.

(** The events logged between the states [s] and [s']. *)
Definition new_events {W} (s s' : BundleSimulator.t W) : list Event :=
  drop (length (events s)) (events s').

(** A receipt that lets the bundle go on. *)
Definition successful (r : Receipt) : Prop := status r <> Some 0.

(** A missing receipt, or one with status 0. *)
Definition failed (r : option Receipt) : Prop :=
  match r with
  | None => True
  | Some r => status r = Some 0
  end.

Definition Zsum (l : list Z) : Z := foldr Z.add 0 l.

(** The integer that the [value] of a request denotes; no value is 0. *)
Definition attached_value (tx : TransactionRequest) : option Z :=
  match value tx with
  | None => Some 0
  | Some (BnString s) => StringToBigInt s
  | Some (BnNumber n) => Some n
  | Some (BnBigInt b) => Some b
  end.

Definition attached_values (txs : list TransactionRequest) : option (list Z) :=
  mapM attached_value txs.

(** The integer that [bundle.expectedProfit] denotes. *)
Definition expected_profit (bundle : TransactionBundle) : option Z :=
  StringToBigInt (expectedProfit bundle).

(** Sum of gas used times the gas price the transaction was sent with. *)
Definition gas_cost (rs : list Receipt) (sent : list (FeeData * SentRequest)) : Z :=
  Zsum (zip_with (fun r p => receipt_gasUsed r * sent_gasPrice (snd p)) rs sent).

(** The runs of the loop over the transactions [txs] from index [i] on:
    the events logged and how the loop ends. *)
Inductive loop_run (N : Z)
  : list TransactionRequest -> nat -> Z -> Z -> list Event -> outcome (Z * Z) -> Prop :=
| run_done i g c :
    loop_run N [] i g c [] (Ok (g, c))
| run_fee_data_throws tx rest i g c e :
    loop_run N (tx :: rest) i g c [] (Throw e)
| run_send_or_wait_throws tx rest i g c fd e :
    loop_run N (tx :: rest) i g c [Sent fd (build_request tx N i fd)] (Throw e)
| run_no_receipt tx rest i g c fd :
    loop_run N (tx :: rest) i g c
      [Sent fd (build_request tx N i fd); ReceiptSeen None]
      (Throw (ErrorObj ("Transaction " +:+ toString (number_add (Z.of_nat i) 1)
                        +:+ " failed - no receipt")))
| run_reverted tx rest i g c fd r :
    status r = Some 0 ->
    loop_run N (tx :: rest) i g c
      [Sent fd (build_request tx N i fd); ReceiptSeen (Some r)]
      (Throw (ErrorObj ("Transaction " +:+ toString (number_add (Z.of_nat i) 1)
                        +:+ " reverted")))
| run_next tx rest i g c fd r evs o :
    successful r ->
    loop_run N rest (S i)
      (number_add g (Number_of_bigint (receipt_gasUsed r)))
      (c + BigInt_of_number (Number_of_bigint (receipt_gasUsed r)) * gas_price_of fd)
      evs o ->
    loop_run N (tx :: rest) i g c
      (Sent fd (build_request tx N i fd) :: ReceiptSeen (Some r) :: evs) o.


(** What the fast mode computes from the total gas cost [c], if every
    conversion to a bigint succeeds. *)
Definition fast_profit_value (bundle : TransactionBundle) (c : Z) : option Z :=
  vs ← attached_values (transactions bundle);
  e ← expected_profit bundle;
  Some (e - c - Zsum vs).

Definition is_failure (r : SimulationResult) (msg : string) : Prop :=
  success r = false /\ gasUsed r = 0 /\ profit r = "0" /\ error r = Some msg.

(** How the result [r] depends on the way [lo] the loop ended. *)
Definition result_of (bundle : TransactionBundle) (fastMode : bool)
    (lo : outcome (Z * Z)) (r : SimulationResult) : Prop :=
  match lo with
  | Throw e => is_failure r (message_of e)
  | Ok (g, c) =>
      (success r = true /\ gasUsed r = g /\ error r = None /\
       exists p, profit r = toString p /\
                 (fastMode = true -> fast_profit_value bundle c = Some p))
      \/
      (exists e, is_failure r (message_of e) /\
                 (fastMode = true -> fast_profit_value bundle c = None))
  end.

(** *** The calls of the loop on the sandbox *)

Section Broadcasts.
Context {W : Type} `{Sandbox W}.

(** The calls that the loop over the transactions [txs] from index [i] on
    makes, starting in the world [w]: for each transaction in turn
    [getFeeData], [sendTransaction] on the request built from its answer,
    then [wait] on the response.  [sent] lists, for every request handed
    to [sendTransaction], the fee data that [getFeeData] had answered and
    the request; [finished] tells whether every transaction got a receipt
    with a status other than 0; [w'] is the world the loop leaves. *)
Inductive broadcast_run (N : Z)
  : list TransactionRequest -> nat -> W -> list (FeeData * SentRequest) -> bool -> W
    -> Prop :=
| broadcast_done i w :
    broadcast_run N [] i w [] true w
| broadcast_no_fee_data tx rest i w e w1 :
    getFeeData w = (Throw e, w1) ->
    broadcast_run N (tx :: rest) i w [] false w1
| broadcast_refused tx rest i w fd w1 e w2 :
    getFeeData w = (Ok fd, w1) ->
    sendTransaction (build_request tx N i fd) w1 = (Throw e, w2) ->
    broadcast_run N (tx :: rest) i w [(fd, build_request tx N i fd)] false w2
| broadcast_unconfirmed tx rest i w fd w1 txResponse w2 o w3 :
    getFeeData w = (Ok fd, w1) ->
    sendTransaction (build_request tx N i fd) w1 = (Ok txResponse, w2) ->
    wait txResponse w2 = (o, w3) ->
    (forall r, o = Ok (Some r) -> status r = Some 0) ->
    broadcast_run N (tx :: rest) i w [(fd, build_request tx N i fd)] false w3
| broadcast_next tx rest i w fd w1 txResponse w2 r w3 sent finished w' :
    getFeeData w = (Ok fd, w1) ->
    sendTransaction (build_request tx N i fd) w1 = (Ok txResponse, w2) ->
    wait txResponse w2 = (Ok (Some r), w3) ->
    successful r ->
    broadcast_run N rest (S i) w3 sent finished w' ->
    broadcast_run N (tx :: rest) i w ((fd, build_request tx N i fd) :: sent) finished w'.

(** The world that [simulateBundle] leaves when its loop left [w]: the
    precise mode, after a loop that finished, sleeps and reads the balance
    once more. *)
Definition settled (fastMode finished : bool) (w : W) : W :=
  if fastMode || negb finished then w
  else match sleep 100 w with
       | (Ok _, w1) => snd (getBalance testWallet w1)
       | (Throw _, w1) => w1
       end.

End Broadcasts.

End Observations.

(** ** Observations on the listener's cache and log *)

Module ListenerObservations.

Import Js MempoolListener.

(** An enriched transaction that [JSON.stringify] accepts: no bigint among
    the arguments of its decoded call. *)
Definition serializable (tx : EnrichedTransaction) : Prop :=
  match decodedCall tx with
  | Some call => existsb is_bigint (args call) = false
  | None => True
  end.

(** The keys that the loop of [cleanupOldEntries] over [keys] leaves in [d]. *)
Fixpoint sweep (keys : list string) (d : gmap string (Redis.entry EnrichedTransaction))
    : gmap string (Redis.entry EnrichedTransaction) :=
  match keys with
  | [] => d
  | key :: rest =>
      sweep rest (if (Redis.ttl_of d key =? -1) || (Redis.ttl_of d key <=? 0)
                  then delete key d else d)
  end.

(** The swap queue, where present, has no time to live. *)
Definition queue_untimed (d : gmap string (Redis.entry EnrichedTransaction)) : Prop :=
  forall e, d !! swap_queue = Some e -> Redis.expiry e = None.

(** A computation on the cache that keeps a property of its keyspace. *)
Definition preserves {A} (P : gmap string (Redis.entry EnrichedTransaction) -> Prop)
    (m : M (Redis.t EnrichedTransaction) A) : Prop :=
  forall r o r', m r = (o, r') -> P (Redis.db r) -> P (Redis.db r').

(** The states of the cache that the listener can bring about, starting
    from any state without a swap queue. *)
Inductive listener_reaches : Redis.t EnrichedTransaction -> Prop :=
| reaches_before_queue r :
    Redis.db r !! swap_queue = None -> listener_reaches r
| reaches_store tx r :
    listener_reaches r -> listener_reaches (snd (storeTransaction tx r))
| reaches_cleanup r :
    listener_reaches r -> listener_reaches (snd (cleanupOldEntries r)).

(** The dedup set after recording [h] in [seen]: cleared wholesale when it
    has grown past 10 000. *)
Definition recorded (h : string) (seen : gset string) : gset string :=
  if 10000 <? Z.of_nat (size ({[h]} ∪ seen)) then ∅ else {[h]} ∪ seen.

Section Handled.

Context {W : Type} `{Chain W}.
Implicit Types s : MempoolListener.t W.

(** The three ways an invocation on the hash [h] can go from the state [s]
    to the state [s']. *)
Inductive handled (h : string) s s' : Prop :=
| handled_seen :
    h ∈ seenTxs s -> s' = s -> handled h s s'
| handled_dropped o w :
    h ∉ seenTxs s ->
    getTransaction h (chain s) = (o, w) ->
    (o = Ok None \/ exists e, o = Throw e) ->
    s' = mkListener (seenTxs s) (redisClient s) w (events s ++ [Fetched h]) ->
    handled h s s'
| handled_processed tx w etx :
    h ∉ seenTxs s ->
    getTransaction h (chain s) = (Ok (Some tx), w) ->
    enrichTransaction (now w) tx tt = (Ok etx, tt) ->
    s' = mkListener (recorded h (seenTxs s))
           (snd (storeTransaction etx (redisClient s))) w
           (events s ++ Fetched h :: Processed h etx ::
              (if 10000 <? Z.of_nat (size ({[h]} ∪ seenTxs s)) then [Cleared] else [])) ->
    handled h s s'.

(** The dedup set was cleared at some position of the log after [i]. *)
Definition cleared_after (evs : list Event) (i : nat) : Prop :=
  exists k, (i < k)%nat /\ evs !! k = Some Cleared.

(** Every hash processed since the last clear is in the dedup set. *)
Definition remembers s : Prop :=
  forall (i : nat) h e,
    events s !! i = Some (Processed h e) ->
    cleared_after (events s) i \/ h ∈ seenTxs s.

(** Between two processings of one hash the dedup set was cleared. *)
Definition reingest_only_after_clear (evs : list Event) : Prop :=
  forall (i j : nat) h e1 e2,
    evs !! i = Some (Processed h e1) ->
    evs !! j = Some (Processed h e2) ->
    (i < j)%nat ->
    exists k, (i < k < j)%nat /\ evs !! k = Some Cleared.

End Handled.

End ListenerObservations.

(** What is said of the event loop. *)

Module EventLoopObservations.

Import Js MempoolListener InterleavedListener.

Section Bounded.
Context {W : Type} `{Chain W}.

(** Every invocation that has returned left a dedup set of at most 10 000
    entries, and so will the invocation that is under way, if there is one,
    when it runs on to its return with nothing else in between. *)
Definition bounded_alone (l : EventLoop W) : Prop :=
  Forall (fun c => Z.of_nat (snd c) <= 10000) (returned l) /\
  match suspended l with
  | [] => Z.of_nat (size (seenTxs (listener l))) <= 10000
  | [invocation] =>
      Z.of_nat (size (seenTxs (snd (complete (rest_of invocation (listener l))))))
      <= 10000
  | _ => False
  end.

End Bounded.

End EventLoopObservations.

(** ** Proof automation *)

(** Case analysis on a scrutinee of [H] that holds no further [match]. *)
Ltac destruct_innermost H :=
  match type of H with
  | context [match ?x with _ => _ end] =>
      lazymatch x with
      | context [match _ with _ => _ end] => fail
      | _ => destruct x
      end
  end.

(* ===================================================================== *)
(** * Part II: properties                                                 *)
(* ===================================================================== *)

(** ** JavaScript numbers *)

Lemma fl_exact z : Z.abs z <= 2 ^ 53 -> Js.fl z = z.
Proof.
  intros Hz. unfold Js.fl.
  destruct (Z.leb_spec (Z.abs z) (2 ^ 53)); [reflexivity | lia].
Qed.

Lemma number_add_exact a b : Z.abs (a + b) <= 2 ^ 53 -> Js.number_add a b = a + b.
Proof. apply fl_exact. Qed.

Lemma number_sub_exact a b : Z.abs (a - b) <= 2 ^ 53 -> Js.number_sub a b = a - b.
Proof. apply fl_exact. Qed.


(** ** The bundle loop *)

Section SimulatorProperties.

Import Js BundleSimulator Observations.
Context {W : Type} `{Sandbox W}.

Local Arguments Js.truthy : simpl never.

(** Every run of [execute] is a [loop_run]; the fields of the simulator
    object are left alone. *)
Lemma execute_run txs : forall i N g c (s s' : BundleSimulator.t W) o,
  execute txs i N g c s = (o, s') ->
  simulationProvider s' = simulationProvider s /\
  forkBlockNumber s' = forkBlockNumber s /\
  exists evs, events s' = events s ++ evs /\ loop_run N txs i g c evs o.
Proof.
  induction txs as [|tx rest IH]; intros i N g c s s' o Hrun; simpl in Hrun.
  - inversion Hrun; subst. repeat split; try reflexivity.
    exists []. rewrite app_nil_r. split; [reflexivity | constructor].
  - unfold bind, on_world, emit, modify, throw in Hrun; simpl in Hrun.
    destruct (getFeeData (world s)) as [[fd|e] w1] eqn:Hfee; simpl in Hrun.
    2:{ inversion Hrun; subst; simpl. repeat split; try reflexivity.
        exists []. rewrite app_nil_r. split; [reflexivity | constructor]. }
    destruct (sendTransaction (build_request tx N i fd) w1) as [[h|e] w2] eqn:Hsend;
      simpl in Hrun.
    2:{ inversion Hrun; subst; simpl. repeat split; try reflexivity.
        eexists. split; [reflexivity | constructor]. }
    destruct (wait h w2) as [[rc|e] w3] eqn:Hwait; simpl in Hrun.
    2:{ inversion Hrun; subst; simpl. repeat split; try reflexivity.
        eexists. split; [reflexivity | constructor]. }
    destruct rc as [r|].
    2:{ inversion Hrun; subst; simpl. repeat split; try reflexivity.
        eexists. split; [rewrite <- app_assoc; reflexivity | constructor]. }
    destruct (status r) as [[|p|p]|] eqn:Hst.
    1:{ inversion Hrun; subst; simpl. repeat split; try reflexivity.
        eexists. split; [rewrite <- app_assoc; reflexivity | by constructor]. }
    all: apply IH in Hrun; simpl in Hrun;
      destruct Hrun as (Hp & Hf & evs & Hev & Hloop);
      repeat split; try assumption;
      exists (Sent fd (build_request tx N i fd) :: ReceiptSeen (Some r) :: evs);
      (split; [rewrite Hev, <- !app_assoc; reflexivity |]);
      constructor; [unfold successful; rewrite Hst; discriminate | assumption].
Qed.

Lemma loop_sent N txs i g c evs o :
  loop_run N txs i g c evs o ->
  forall (k : nat) fd req, sent_of evs !! k = Some (fd, req) ->
  exists tx, txs !! k = Some tx /\ req = build_request tx N (i + k) fd.
Proof.
  induction 1 as [| | | | |tx rest i g c fd r evs o Hok Hrun IH];
    intros k fd' req Hk; simpl in Hk; try discriminate.
  1-3: destruct k; simpl in Hk; [|discriminate];
    inversion Hk; subst; exists tx; rewrite Nat.add_0_r; split; reflexivity.
  destruct k as [|k]; simpl in Hk.
  - inversion Hk; subst. exists tx. rewrite Nat.add_0_r. split; reflexivity.
  - apply IH in Hk as (tx' & Htx & Hreq). exists tx'. split; [assumption|].
    rewrite Hreq. f_equal. lia.
Qed.

Lemma loop_failed_receipt N txs i g c evs o :
  loop_run N txs i g c evs o ->
  forall (k : nat) bad, receipts_of evs !! k = Some bad -> failed bad ->
  (exists msg, o = Throw (ErrorObj msg) /\ msg <> "") /\
  length (sent_of evs) = S k /\ length (receipts_of evs) = S k /\
  exists before, evs = before ++ [ReceiptSeen bad].
Proof.
  induction 1 as [| | | |tx rest i g c fd r Hst|tx rest i g c fd r evs o Hok Hrun IH];
    intros k bad Hk Hbad; simpl in Hk; try discriminate.
  - destruct k; simpl in Hk; [|discriminate]. inversion Hk; subst. simpl.
    repeat split; try reflexivity.
    + eexists; split; [reflexivity | discriminate].
    + by eexists [_].
  - destruct k; simpl in Hk; [|discriminate]. inversion Hk; subst. simpl.
    repeat split; try reflexivity.
    + eexists; split; [reflexivity | discriminate].
    + by eexists [_].
  - destruct k as [|k]; simpl in Hk.
    + inversion Hk; subst. simpl in Hbad. contradiction.
    + destruct (IH _ _ Hk Hbad) as (Hmsg & Hs & Hr & before & Hlast). simpl.
      repeat split; [assumption | by rewrite Hs | by rewrite Hr |].
      exists (Sent fd (build_request tx N i fd) :: ReceiptSeen (Some r) :: before).
      by rewrite Hlast.
Qed.

Lemma loop_sent_prefix N txs i g c evs o :
  loop_run N txs i g c evs o ->
  (fun p => sent_tx (snd p)) <$> sent_of evs = take (length (sent_of evs)) txs.
Proof.
  induction 1 as [| | | | |tx rest i g c fd r evs o Hok Hrun IH]; simpl;
    try reflexivity.
  f_equal. exact IH.
Qed.

Lemma loop_no_nonce N txs i g c evs o :
  loop_run N txs i g c evs o -> nonces_of evs = [].
Proof. induction 1; simpl; try reflexivity; assumption. Qed.

Lemma loop_completed N txs i g c evs g' c' :
  loop_run N txs i g c evs (Ok (g', c')) ->
  exists rs,
    receipts_of evs = Some <$> rs /\
    length rs = length txs /\
    length (sent_of evs) = length txs /\
    Forall successful rs /\
    c' = c + Zsum (zip_with (fun r p => Number_of_bigint (receipt_gasUsed r)
                                        * sent_gasPrice (snd p)) rs (sent_of evs)).
Proof.
  remember (Ok (g', c')) as o eqn:Ho. intros Hrun. revert Ho.
  induction Hrun as [i g c| | | | |tx rest i g c fd r evs o Hok Hrun IH];
    intros Ho; try discriminate.
  - inversion Ho; subst. exists []. simpl. repeat split; [constructor | lia].
  - destruct (IH Ho) as (rs & Hrs & Hlen & Hsent & Hall & Hc).
    exists (r :: rs). simpl. rewrite Hrs, Hlen, Hsent.
    repeat split; [by constructor|].
    rewrite Hc. unfold BigInt_of_number. lia.
Qed.

Lemma loop_all_successful N txs i g c evs o :
  loop_run N txs i g c evs o ->
  forall rs, receipts_of evs = Some <$> rs -> length rs = length txs ->
  Forall successful rs ->
  exists g' c', o = Ok (g', c').
Proof.
  induction 1 as [| | | |tx rest i g c fd r Hst|tx rest i g c fd r evs o Hok Hrun IH];
    intros rs Hrs Hlen Hall; simpl in Hrs.
  - eauto.
  - destruct rs; simpl in *; discriminate.
  - destruct rs; simpl in *; discriminate.
  - destruct rs; simpl in *; discriminate.
  - destruct rs as [|r' rs]; simpl in *; [discriminate|].
    inversion Hrs; subst. inversion Hall; subst. contradiction.
  - destruct rs as [|r' rs]; simpl in *; [discriminate|].
    inversion Hrs; subst. inversion Hall; subst.
    apply (IH rs); [assumption | lia | assumption].
Qed.

(** ** The profit of the fast mode *)

Lemma falsy_value tx v :
  value tx = Some v -> truthy (Some v) = false -> attached_value tx = Some 0.
Proof.
  intros Hv Hf. unfold attached_value. rewrite Hv.
  destruct v as [str|n|b]; unfold truthy in Hf; apply negb_false_iff in Hf.
  - apply String.eqb_eq in Hf. subst. reflexivity.
  - apply Z.eqb_eq in Hf. by subst.
  - apply Z.eqb_eq in Hf. by subst.
Qed.

Lemma BigInt_value tx v (s : BundleSimulator.t W) :
  value tx = Some v ->
  exists o, BigInt v s = (o, s) /\
    match attached_value tx with
    | Some b => o = Ok b
    | None => exists e, o = Throw e
    end.
Proof.
  intros Hv. unfold attached_value. rewrite Hv.
  destruct v as [str|n|b]; simpl; unfold ret, throw; eauto.
  destruct (StringToBigInt str); eauto.
Qed.

Lemma subtract_values_run txs : forall p (s : BundleSimulator.t W),
  exists o, subtract_values txs p s = (o, s) /\
    match attached_values txs with
    | Some vs => o = Ok (p - Zsum vs)
    | None => exists e, o = Throw e
    end.
Proof.
  unfold attached_values.
  induction txs as [|tx rest IH]; intros p s; simpl.
  - eexists. split; [reflexivity|]. simpl. f_equal. lia.
  - destruct (value tx) as [v|] eqn:Hv.
    + destruct (truthy (Some v)) eqn:Ht.
      * destruct (BigInt_value tx v s Hv) as (o & Ho & Hm).
        unfold bind. rewrite Ho.
        destruct (attached_value tx) as [b|]; simpl.
        -- subst o. destruct (IH (p - b) s) as (o' & Ho' & Hm'). rewrite Ho'.
           exists o'. split; [reflexivity|].
           destruct (mapM attached_value rest); simpl in *; [|assumption].
           rewrite Hm'; f_equal; lia.
        -- destruct Hm as [e ->]. eauto.
      * rewrite (falsy_value tx v Hv Ht). simpl.
        destruct (IH p s) as (o' & Ho' & Hm'). rewrite Ho'.
        exists o'. split; [reflexivity|].
        destruct (mapM attached_value rest); simpl in *; [|assumption].
        rewrite Hm'; f_equal; lia.
    + assert (Ha : attached_value tx = Some 0) by (unfold attached_value; by rewrite Hv).
      rewrite Ha. simpl.
      destruct (IH p s) as (o' & Ho' & Hm'). rewrite Ho'.
      exists o'. split; [reflexivity|].
      destruct (mapM attached_value rest); simpl in *; [|assumption].
      rewrite Hm'; f_equal; lia.
Qed.


Lemma fast_profit_run bundle c (s : BundleSimulator.t W) :
  exists o, fast_profit bundle c s = (o, s) /\
    match fast_profit_value bundle c with
    | Some p => o = Ok p
    | None => exists e, o = Throw e
    end.
Proof.
  unfold fast_profit, fast_profit_value, bind.
  destruct (subtract_values_run (transactions bundle) (0 - c) s) as (o & Ho & Hm).
  rewrite Ho.
  destruct (attached_values (transactions bundle)) as [vs|]; simpl.
  2:{ destruct Hm as [e ->]. eauto. }
  subst o. unfold expected_profit.
  destruct (String.eqb (expectedProfit bundle) "") eqn:He1; simpl.
  { apply String.eqb_eq in He1. rewrite He1. simpl.
    eexists. split; [reflexivity|]. unfold ret. do 2 f_equal. }
  destruct (String.eqb (expectedProfit bundle) "0") eqn:He2; simpl.
  { apply String.eqb_eq in He2. rewrite He2. simpl.
    eexists. split; [reflexivity|]. unfold ret. do 2 f_equal. }
  destruct (StringToBigInt (expectedProfit bundle)) as [e|]; simpl.
  - eexists. split; [reflexivity|]. f_equal. lia.
  - eauto.
Qed.

Lemma precise_profit_events b (s s' : BundleSimulator.t W) o :
  precise_profit b s = (o, s') ->
  events s' = events s /\ simulationProvider s' = simulationProvider s.
Proof.
  unfold precise_profit, bind, on_world, ret. intros Hrun.
  destruct (sleep 100 (world s)) as [[[]|e] w1]; simpl in Hrun.
  2:{ by inversion Hrun. }
  destruct (getBalance testWallet w1) as [[b'|e] w2]; simpl in Hrun;
    by inversion Hrun.
Qed.

(** ** The runs of [simulateBundle] *)



Lemma simulateBundle_run bundle fastMode (s s' : BundleSimulator.t W) o :
  is_Some (simulationProvider s) ->
  simulateBundle bundle fastMode s = (o, s') ->
  exists r, o = Ok r /\
    ((events s' = events s /\ exists e, is_failure r (message_of e))
     \/
     (exists N evs lo,
        events s' = events s ++ NonceSeen N :: evs /\
        (exists b w0 w1, getBalance testWallet (world s) = (Ok b, w0) /\
                         getTransactionCount testWallet w0 = (Ok N, w1)) /\
        loop_run N (transactions bundle) 0 0 0 evs lo /\
        result_of bundle fastMode lo r)).
Proof.
  intros [url Hurl] Hrun.
  unfold simulateBundle, bind, get, clock, try_catch, on_world, emit, modify, ret in Hrun.
  rewrite Hurl in Hrun.
  destruct (getBalance testWallet (world s)) as [[b0|e] w1] eqn:Hbal; simpl in Hrun.
  2:{ inversion Hrun; subst; simpl. eexists. split; [reflexivity|].
      left. split; [reflexivity|]. exists e. by repeat split. }
  destruct (getTransactionCount testWallet w1) as [[N|e] w2] eqn:Hcnt; simpl in Hrun.
  2:{ inversion Hrun; subst; simpl. eexists. split; [reflexivity|].
      left. split; [reflexivity|]. exists e. by repeat split. }
  match type of Hrun with
  | context [execute ?txs ?i ?n ?g ?c ?st] =>
      destruct (execute txs i n g c st) as [lo s1] eqn:Hloop
  end.
  apply execute_run in Hloop as (Hp & _ & evs & Hev & Hloop). simpl in Hev, Hp.
  destruct lo as [[g c]|e]; simpl in Hrun.
  2:{ inversion Hrun; subst; simpl. eexists. split; [reflexivity|].
      right. exists N, evs, (Throw e). rewrite Hev, <- app_assoc.
      repeat split; try assumption; try reflexivity. eauto. }
  destruct fastMode.
  - destruct (fast_profit_run bundle c s1) as (po & Hpo & Hm). rewrite Hpo in Hrun.
    destruct (fast_profit_value bundle c) as [p|] eqn:Hfp.
    + subst po. simpl in Hrun. inversion Hrun; subst; simpl.
      eexists. split; [reflexivity|].
      right. exists N, evs, (Ok (g, c)). rewrite Hev, <- app_assoc.
      repeat split; try assumption; try reflexivity; [eauto|].
      left. simpl. repeat split. exists p. split; [reflexivity | by intros _].
    + destruct Hm as [e ->]. simpl in Hrun. inversion Hrun; subst; simpl.
      eexists. split; [reflexivity|].
      right. exists N, evs, (Ok (g, c)). rewrite Hev, <- app_assoc.
      repeat split; try assumption; try reflexivity; [eauto|].
      right. exists e. by repeat split.
  - destruct (precise_profit b0 s1) as [po s2] eqn:Hpp.
    apply precise_profit_events in Hpp as [Hev2 _].
    destruct po as [p|e]; simpl in Hrun; inversion Hrun; subst; simpl.
    + eexists. split; [reflexivity|].
      right. exists N, evs, (Ok (g, c)). rewrite Hev2, Hev, <- app_assoc.
      repeat split; try assumption; try reflexivity; [eauto|].
      left. simpl. repeat split. exists p. split; [reflexivity | discriminate].
    + eexists. split; [reflexivity|].
      right. exists N, evs, (Ok (g, c)). rewrite Hev2, Hev, <- app_assoc.
      repeat split; try assumption; try reflexivity; [eauto|].
      right. exists e. split; [by repeat split | discriminate].
Qed.

Lemma new_events_app (s s' : BundleSimulator.t W) evs :
  events s' = events s ++ evs -> new_events s s' = evs.
Proof. intros Hev. unfold new_events. rewrite Hev. apply drop_app_length. Qed.

Lemma new_events_same (s s' : BundleSimulator.t W) :
  events s' = events s -> new_events s s' = [].
Proof. intros Hev. unfold new_events. rewrite Hev. apply drop_all. Qed.

(** C9: every result of [simulateBundle] that reports [success = false]
    reports [gasUsed = 0] and [profit = "0"], whatever gas the earlier
    transactions of the bundle consumed. *)
Theorem simulateBundle_failure_reports_zero bundle fastMode
    (s s' : BundleSimulator.t W) r :
  simulateBundle bundle fastMode s = (Ok r, s') ->
  success r = false ->
  gasUsed r = 0 /\ profit r = "0".
Proof.
  intros Hrun Hfail.
  destruct (simulationProvider s) as [url|] eqn:Hurl.
  2:{ unfold simulateBundle, bind, get in Hrun. rewrite Hurl in Hrun. discriminate. }
  destruct (simulateBundle_run bundle fastMode s s' (Ok r)) as (r' & Hr & Hcases);
    [by eexists | assumption |].
  inversion Hr; subst r'. clear Hr.
  destruct Hcases as [(_ & e & _ & Hg & Hp & _) | (N & evs & lo & _ & _ & _ & Hres)].
  { by split. }
  destruct lo as [[g c]|e]; simpl in Hres.
  - destruct Hres as [(Hs & _) | (e & (_ & Hg & Hp & _) & _)]; [congruence | by split].
  - destruct Hres as (_ & Hg & Hp & _). by split.
Qed.


(** Every run of [execute] makes the calls of a [broadcast_run] on the
    world, and logs one [Sent] per request handed to [sendTransaction]. *)
Lemma execute_broadcasts txs : forall i N g c (s s' : BundleSimulator.t W) o,
  execute txs i N g c s = (o, s') ->
  exists sent,
    sent_of (drop (length (events s)) (events s')) = sent /\
    broadcast_run N txs i (world s) sent
      (match o with Ok _ => true | Throw _ => false end) (world s').
Proof.
  induction txs as [|tx rest IH]; intros i N g c s s' o Hrun; simpl in Hrun.
  - inversion Hrun; subst. exists []. rewrite drop_all. split; [reflexivity | constructor].
  - unfold bind, on_world, emit, modify, throw in Hrun; simpl in Hrun.
    destruct (getFeeData (world s)) as [[fd|e] w1] eqn:Hfee; simpl in Hrun.
    2:{ inversion Hrun; subst; simpl. exists []. rewrite drop_all.
        split; [reflexivity | by econstructor]. }
    destruct (sendTransaction (build_request tx N i fd) w1) as [[h|e] w2] eqn:Hsend;
      simpl in Hrun.
    2:{ inversion Hrun; subst; simpl. eexists. rewrite drop_app_length.
        split; [reflexivity | by econstructor]. }
    destruct (wait h w2) as [[rc|e] w3] eqn:Hwait; simpl in Hrun.
    2:{ inversion Hrun; subst; simpl. eexists. rewrite drop_app_length.
        split; [reflexivity|]. eapply broadcast_unconfirmed; try eassumption.
        intros r [=]. }
    destruct rc as [r|].
    2:{ inversion Hrun; subst; simpl. eexists. rewrite <- app_assoc, drop_app_length.
        split; [reflexivity|]. eapply broadcast_unconfirmed; try eassumption.
        intros r [=]. }
    destruct (status r) as [[|p|p]|] eqn:Hst.
    1:{ inversion Hrun; subst; simpl. eexists. rewrite <- app_assoc, drop_app_length.
        split; [reflexivity|]. eapply broadcast_unconfirmed; try eassumption.
        intros r' [= <-]. exact Hst. }
    all: pose proof (execute_run _ _ _ _ _ _ _ _ Hrun) as (_ & _ & evs & Hev & _);
      apply IH in Hrun as (sent & Hsent & Hb); simpl in Hsent, Hb, Hev;
      rewrite Hev, drop_app_length in Hsent;
      exists ((fd, build_request tx N i fd) :: sent);
      (split; [rewrite Hev, <- !app_assoc, drop_app_length; simpl; by rewrite Hsent |]);
      eapply broadcast_next; try eassumption;
      unfold successful; rewrite Hst; discriminate.
Qed.

Lemma broadcast_sent N txs i w sent finished w' :
  broadcast_run N txs i w sent finished w' ->
  forall (k : nat) fd req, sent !! k = Some (fd, req) ->
  exists tx, txs !! k = Some tx /\ req = build_request tx N (i + k) fd.
Proof.
  induction 1 as [| | | |tx rest i w fd w1 h w2 r w3 sent finished w' _ _ _ _ _ IH];
    intros k fd' req Hk; simpl in Hk; try discriminate.
  1-2: destruct k; simpl in Hk; [|discriminate];
    inversion Hk; subst; exists tx; rewrite Nat.add_0_r; split; reflexivity.
  destruct k as [|k]; simpl in Hk.
  - inversion Hk; subst. exists tx. rewrite Nat.add_0_r. split; reflexivity.
  - apply IH in Hk as (tx' & Htx & Hreq). exists tx'. split; [assumption|].
    rewrite Hreq. f_equal. lia.
Qed.

(** The world and the log of a run that read the balance and the
    transaction count of the wallet. *)
Lemma simulateBundle_broadcasts bundle fastMode (s s' : BundleSimulator.t W) o b w0 N w1 :
  is_Some (simulationProvider s) ->
  getBalance testWallet (world s) = (Ok b, w0) ->
  getTransactionCount testWallet w0 = (Ok N, w1) ->
  simulateBundle bundle fastMode s = (o, s') ->
  exists sent finished w2,
    nonces_of (new_events s s') = [N] /\
    sent_of (new_events s s') = sent /\
    broadcast_run N (transactions bundle) 0 w1 sent finished w2 /\
    world s' = settled fastMode finished w2.
Proof.
  intros [url Hurl] Hbal Hcnt Hrun.
  unfold simulateBundle, bind, get, clock, try_catch, on_world, emit, modify, ret in Hrun.
  rewrite Hurl, Hbal in Hrun. simpl in Hrun. rewrite Hcnt in Hrun. simpl in Hrun.
  match type of Hrun with
  | context [execute ?txs ?i ?n ?g ?c ?st] =>
      destruct (execute txs i n g c st) as [lo s1] eqn:Hloop
  end.
  pose proof (execute_run _ _ _ _ _ _ _ _ Hloop) as (_ & _ & evs & Hev & Hlr).
  apply execute_broadcasts in Hloop as (sent & Hsent & Hb). simpl in Hsent, Hb, Hev.
  rewrite Hev, drop_app_length in Hsent. subst sent.
  assert (Hlog : forall s2 : BundleSimulator.t W, events s2 = events s1 ->
            nonces_of (new_events s s2) = [N] /\ sent_of (new_events s s2) = sent_of evs).
  { intros s2 Hs2. unfold new_events. rewrite Hs2, Hev, <- app_assoc, drop_app_length.
    simpl. split; [|reflexivity].
    by rewrite (loop_no_nonce _ _ _ _ _ _ _ Hlr). }
  destruct lo as [[g c]|e]; simpl in Hrun.
  2:{ apply pair_equal_spec in Hrun as [_ <-]; simpl. exists (sent_of evs), false, (world s1).
      destruct (Hlog s1 eq_refl) as [Hn Hs]. repeat split; try assumption.
      unfold settled. by rewrite orb_true_r. }
  destruct fastMode.
  - destruct (fast_profit_run bundle c s1) as (po & Hpo & _). rewrite Hpo in Hrun.
    exists (sent_of evs), true, (world s1).
    destruct po as [p|e]; simpl in Hrun; apply pair_equal_spec in Hrun as [_ <-]; simpl;
      destruct (Hlog s1 eq_refl) as [Hn Hs]; repeat split; assumption.
  - exists (sent_of evs), true, (world s1).
    unfold precise_profit, bind, on_world, ret in Hrun. unfold settled. simpl.
    destruct (sleep 100 (world s1)) as [[[]|e] wa] eqn:Hsleep; simpl in Hrun.
    2:{ apply pair_equal_spec in Hrun as [_ <-]; simpl.
        destruct (Hlog (mkSimulator (simulationProvider s1) (forkBlockNumber s1) wa
                          (events s1)) eq_refl) as [Hn Hs].
        repeat split; assumption. }
    destruct (getBalance testWallet wa) as [[b'|e] wb] eqn:Hfinal; simpl in Hrun;
      apply pair_equal_spec in Hrun as [_ <-]; simpl;
      destruct (Hlog (mkSimulator (simulationProvider s1) (forkBlockNumber s1) wb
                        (events s1)) eq_refl) as [Hn Hs];
      repeat split; assumption.
Qed.

(** C3: with an initialized simulation provider, once the balance and the
    transaction count [N] of the test wallet were read at the start of the
    bundle, the calls that [simulateBundle] makes on the sandbox are those
    of a [broadcast_run]: for each transaction in turn [getFeeData], then
    [sendTransaction] on the request built from its answer, then [wait];
    the world it leaves is the world these calls leave, the transaction
    count is read once, and the request handed to [sendTransaction] for the
    bundle transaction at index [k] carries that transaction, the nonce
    [N + k] and a non-zero gas price: the [gasPrice] that [getFeeData]
    answered for it, or 25 gwei when that is [null] (or zero). *)
Theorem simulateBundle_nonce_and_gas_price bundle fastMode
    (s s' : BundleSimulator.t W) o b w0 N w1 :
  is_Some (simulationProvider s) ->
  getBalance testWallet (world s) = (Ok b, w0) ->
  getTransactionCount testWallet w0 = (Ok N, w1) ->
  simulateBundle bundle fastMode s = (o, s') ->
  exists sent finished w2,
    nonces_of (new_events s s') = [N] /\
    sent_of (new_events s s') = sent /\
    broadcast_run N (transactions bundle) 0 w1 sent finished w2 /\
    world s' = settled fastMode finished w2 /\
    forall (k : nat) fd req, sent !! k = Some (fd, req) ->
      transactions bundle !! k = Some (sent_tx req) /\
      sent_nonce req = number_add N (Z.of_nat k) /\
      (Z.abs (N + Z.of_nat k) <= 2 ^ 53 -> sent_nonce req = N + Z.of_nat k) /\
      sent_gasPrice req <> 0 /\
      sent_gasPrice req = match fee_gasPrice fd with
                          | Some p => if p =? 0 then 25 * 10 ^ 9 else p
                          | None => 25 * 10 ^ 9
                          end.
Proof.
  intros Hurl Hbal Hcnt Hrun.
  destruct (simulateBundle_broadcasts bundle fastMode s s' o b w0 N w1 Hurl Hbal Hcnt Hrun)
    as (sent & finished & w2 & Hnonce & Hsent & Hb & Hworld).
  exists sent, finished, w2. repeat (split; [assumption|]).
  intros k fd req Hk.
  destruct (broadcast_sent _ _ _ _ _ _ _ Hb k fd req Hk) as (tx & Htx & ->); simpl.
  split; [exact Htx|]. split; [reflexivity|].
  split; [intros Hsafe; by apply number_add_exact|].
  unfold gas_price_of, gwei25. destruct (fee_gasPrice fd) as [p|]; [|split; [lia|reflexivity]].
  destruct (Z.eqb_spec p 0); split; (lia || reflexivity).
Qed.

Lemma gas_cost_exact rs sent :
  Forall (fun r => 0 <= receipt_gasUsed r <= MAX_SAFE_INTEGER) rs ->
  Zsum (zip_with (fun r p => Number_of_bigint (receipt_gasUsed r)
                             * sent_gasPrice (snd p)) rs sent)
  = gas_cost rs sent.
Proof.
  unfold gas_cost. intros Hall. revert sent.
  induction Hall as [|r rs Hr Hall IH]; intros [|p sent]; simpl; try reflexivity.
  rewrite IH. unfold Number_of_bigint. rewrite fl_exact; [reflexivity|].
  unfold MAX_SAFE_INTEGER in Hr. lia.
Qed.

(** C1: in fast mode, when the run got past reading the wallet's balance
    and transaction count and every transaction of the bundle produced a
    successful receipt (with a gas amount that a number holds exactly),
    [simulateBundle] returns [success = true] with the profit
    expected-profit - sum of gas_used * gas_price - sum of values, as an
    integer of wei; [e] and [vs] are the integers that [expectedProfit]
    and the [value] fields denote. *)
Theorem simulateBundle_fast_profit bundle (s s' : BundleSimulator.t W) o rs e vs :
  is_Some (simulationProvider s) ->
  simulateBundle bundle true s = (o, s') ->
  nonces_of (new_events s s') <> [] ->
  receipts_of (new_events s s') = Some <$> rs ->
  length rs = length (transactions bundle) ->
  Forall successful rs ->
  Forall (fun r => 0 <= receipt_gasUsed r <= MAX_SAFE_INTEGER) rs ->
  expected_profit bundle = Some e ->
  attached_values (transactions bundle) = Some vs ->
  exists r, o = Ok r /\ success r = true /\
    profit r = toString (e - gas_cost rs (sent_of (new_events s s')) - Zsum vs).
Proof.
  intros Hurl Hrun Hstarted Hrs Hlen Hok Hsafe He Hvs.
  destruct (simulateBundle_run bundle true s s' o Hurl Hrun) as (r & -> & Hcases).
  destruct Hcases as [(Hev & _) | (N & evs & lo & Hev & _ & Hloop & Hres)].
  { rewrite (new_events_same _ _ Hev) in Hstarted. contradiction. }
  rewrite (new_events_app _ _ _ Hev) in *. simpl in Hrs. simpl.
  destruct (loop_all_successful _ _ _ _ _ _ _ Hloop rs Hrs Hlen Hok) as (g & c & ->).
  destruct (loop_completed _ _ _ _ _ _ _ _ Hloop) as (rs' & Hrs' & _ & _ & _ & Hc).
  rewrite Hrs in Hrs'. apply (inj (fmap Some)) in Hrs'. subst rs'.
  rewrite gas_cost_exact in Hc by assumption.
  exists r. split; [reflexivity|].
  assert (Hfp : fast_profit_value bundle c
                = Some (e - gas_cost rs (sent_of evs) - Zsum vs)).
  { unfold fast_profit_value. rewrite Hvs, He. simpl. do 2 f_equal. lia. }
  simpl in Hres.
  destruct Hres as [(Hs & _ & _ & p & Hp & Hfast) | (err & _ & Hnone)].
  - split; [assumption|]. rewrite Hp. f_equal.
    specialize (Hfast eq_refl). congruence.
  - specialize (Hnone eq_refl). congruence.
Qed.

End SimulatorProperties.

(** ** Fork reset *)

Section ResetProperties.

Import Js BundleSimulator Observations.
Context {W : Type} `{Sandbox W}.

(** [resetFork] of [bundle-simulator.ts]: a completed reset has called
    [anvil_reset] with the single object [{forking: {jsonRpcUrl,
    blockNumber: head - 2}}] and then [anvil_setBalance] with the default
    account and the launch balance in wei; a reset that stopped early made
    a prefix of these two calls. *)
Lemma resetFork_object_then_refund (s s' : BundleSimulator.t W) o :
  is_Some (simulationProvider s) ->
  resetFork s = (o, s') ->
  (o = Ok tt ->
   exists head w,
     getBlockNumber (world s) = (Ok head, w) /\
     forkBlockNumber s' = Some (number_sub head 2) /\
     rpcs_of (new_events s s')
     = [ ("anvil_reset", [forking Constants.rpcUrl (number_sub head 2)]);
         ("anvil_setBalance",
          [JString "0xf39Fd6e51aad88F6F4ce6aB8827279cffFb92266";
           JString (toString (parseEther anvilBalance))]) ]) /\
  (forall head w,
     getBlockNumber (world s) = (Ok head, w) ->
     rpcs_of (new_events s s') `prefix_of`
       [ ("anvil_reset", [forking Constants.rpcUrl (number_sub head 2)]);
         ("anvil_setBalance",
          [JString "0xf39Fd6e51aad88F6F4ce6aB8827279cffFb92266";
           JString (toString (parseEther anvilBalance))]) ]).
Proof.
  intros [url Hurl] Hrun.
  unfold resetFork, rpc, set_forkBlockNumber, bind, get, on_world, emit, modify, ret
    in Hrun.
  rewrite Hurl in Hrun. simpl in Hrun.
  destruct (getBlockNumber (world s)) as [[head|e] w1] eqn:Hhead; simpl in Hrun.
  2:{ inversion Hrun; subst. split; [discriminate|]. intros ? ? [=]. }
  destruct (send "anvil_reset" _ w1) as [[j|e] w2] eqn:Hreset; simpl in Hrun.
  2:{ inversion Hrun; subst. split; [discriminate|].
      intros ? ? [= <- <-]. unfold new_events. simpl.
      rewrite drop_app_length. simpl. by eexists [_]. }
  destruct (send "anvil_setBalance" _ w2) as [[j'|e] w3] eqn:Hfund; simpl in Hrun.
  - inversion Hrun; subst. split.
    + intros _. exists head, w1. unfold new_events. simpl.
      rewrite <- app_assoc, drop_app_length. by repeat split.
    + intros ? ? [= <- <-]. unfold new_events. simpl.
      rewrite <- app_assoc, drop_app_length. simpl. reflexivity.
  - inversion Hrun; subst. split; [discriminate|].
    intros ? ? [= <- <-]. unfold new_events. simpl.
    rewrite <- app_assoc, drop_app_length. simpl. reflexivity.
Qed.

(** [resetFork] of the earlier copy: whatever the outside answers, the only
    raw call it can make is [anvil_reset] with the two positional
    parameters [rpcUrl, head - 2]; it never calls [anvil_setBalance]. *)
Lemma earlier_resetFork_calls (s s' : BundleSimulator.t W) o :
  EarlierBundleSimulator.resetFork s = (o, s') ->
  rpcs_of (new_events s s') = [] \/
  exists head,
    rpcs_of (new_events s s')
    = [("anvil_reset", [JString Constants.rpcUrl; JNumber (number_sub head 2)])].
Proof.
  intros Hrun.
  unfold EarlierBundleSimulator.resetFork, rpc, set_forkBlockNumber, bind, get,
    on_world, emit, modify, ret, throw in Hrun.
  destruct (simulationProvider s) as [url|]; simpl in Hrun.
  2:{ inversion Hrun; subst. left. unfold new_events. by rewrite drop_all. }
  destruct (getBlockNumber (world s)) as [[head|e] w1] eqn:Hhead; simpl in Hrun.
  2:{ inversion Hrun; subst. left. unfold new_events. simpl. by rewrite drop_all. }
  right. exists head.
  destruct (send "anvil_reset" _ w1) as [[j|e] w2] eqn:Hreset; simpl in Hrun;
    inversion Hrun; subst; unfold new_events; simpl;
    by rewrite drop_app_length.
Qed.

End ResetProperties.

(** ** Runs on the scripted sandbox *)

Import Js BundleSimulator Observations ScriptedSandbox.

(** C4 (the earlier copy of the class): with a started simulator and the
    head of the real chain at block 1000, [resetFork] calls [anvil_reset]
    with the two positional parameters [rpcUrl] and [998], not with one
    object, and makes no [anvil_setBalance] call. *)
Theorem earlier_resetFork_positional_no_refund :
  let run := EarlierBundleSimulator.resetFork (started both_succeed) in
  fst run = Ok tt /\
  events (snd run)
  = [Rpc "anvil_reset" [JString "http://127.0.0.1:9650/ext/bc/C/rpc"; JNumber 998]] /\
  events (snd (resetFork (started both_succeed)))
  = [Rpc "anvil_reset"
       [JObject [("forking",
                  JObject [("jsonRpcUrl", JString "http://127.0.0.1:9650/ext/bc/C/rpc");
                           ("blockNumber", JNumber 998)])]];
     Rpc "anvil_setBalance"
       [JString "0xf39Fd6e51aad88F6F4ce6aB8827279cffFb92266";
        JString "1000000000000000000000000"]].
Proof. vm_compute. repeat split. Qed.

Lemma simulateBundle_failure_reports_zero_witness :
  exists r s',
    simulateBundle two_transactions false (started second_reverts) = (Ok r, s') /\
    receipts_of (events s')
    = [Some (mkReceipt (Some 1) 120000); Some (mkReceipt (Some 0) 30000)] /\
    success r = false /\ gasUsed r = 0 /\ profit r = "0".
Proof.
  eexists. eexists.
  split; [vm_compute; reflexivity|].
  split; [vm_compute; reflexivity|].
  split; [reflexivity|].
  eapply (simulateBundle_failure_reports_zero two_transactions false
            (started second_reverts)).
  - vm_compute. reflexivity.
  - reflexivity.
Defined.


(** The bundle [two_transactions] on a recording sandbox whose wallet has
    sent 5 transactions and whose fee data has the gas price 0: both
    requests reach the mempool, with the nonces 5 and 6 and the default
    gas price of 25 gwei. *)
Lemma simulateBundle_nonce_and_gas_price_witness :
  RecordingSandbox.mempool
    (world (snd (simulateBundle two_transactions true
                   (RecordingSandbox.started both_succeed))))
  = [ mkSent (mkRequest (Some 0x60aE616a2155Ee3d9A68541Ba4544862310933d4)
                        (Some (BnBigInt (10 ^ 18))) [] (Some (BnNumber 300000)))
             5 (BnNumber 300000) 25000000000;
      mkSent (mkRequest (Some 0xB97EF9Ef8734C71904D8002F8b6Bc66Dd9c48a6E)
                        (Some (BnNumber 0)) [] None)
             6 (BnNumber 500000) 25000000000 ] /\
  exists sent finished w2,
    nonces_of (new_events (RecordingSandbox.started both_succeed)
                 (snd (simulateBundle two_transactions true
                         (RecordingSandbox.started both_succeed)))) = [5] /\
    sent_of (new_events (RecordingSandbox.started both_succeed)
               (snd (simulateBundle two_transactions true
                       (RecordingSandbox.started both_succeed)))) = sent /\
    broadcast_run 5 (transactions two_transactions) 0
      (RecordingSandbox.mkRecording both_succeed []) sent finished w2 /\
    world (snd (simulateBundle two_transactions true
                  (RecordingSandbox.started both_succeed)))
    = settled true finished w2 /\
    forall (k : nat) fd req, sent !! k = Some (fd, req) ->
      transactions two_transactions !! k = Some (sent_tx req) /\
      sent_nonce req = number_add 5 (Z.of_nat k) /\
      (Z.abs (5 + Z.of_nat k) <= 2 ^ 53 -> sent_nonce req = 5 + Z.of_nat k) /\
      sent_gasPrice req <> 0 /\
      sent_gasPrice req = match fee_gasPrice fd with
                          | Some p => if p =? 0 then 25 * 10 ^ 9 else p
                          | None => 25 * 10 ^ 9
                          end.
Proof.
  split; [vm_compute; reflexivity|].
  apply (simulateBundle_nonce_and_gas_price two_transactions true
           (RecordingSandbox.started both_succeed)
           (snd (simulateBundle two_transactions true
                   (RecordingSandbox.started both_succeed)))
           (fst (simulateBundle two_transactions true
                   (RecordingSandbox.started both_succeed)))
           (parseEther 1000000)
           (RecordingSandbox.mkRecording both_succeed []) 5
           (RecordingSandbox.mkRecording both_succeed [])).
  - by eexists.
  - reflexivity.
  - reflexivity.
  - apply surjective_pairing.
Defined.

Lemma simulateBundle_fast_profit_witness :
  exists r,
    fst (simulateBundle two_transactions true (started both_succeed)) = Ok r /\
    success r = true /\
    profit r = "-994150000000000000".
Proof.
  assert (Hprofit : toString
            (10 ^ 16
             - gas_cost [mkReceipt (Some 1) 120000; mkReceipt (Some 1) 46000]
                 (sent_of (new_events (started both_succeed)
                    (snd (simulateBundle two_transactions true (started both_succeed)))))
             - Zsum [10 ^ 18; 0])
          = "-994150000000000000") by (vm_compute; reflexivity).
  rewrite <- Hprofit.
  apply (simulateBundle_fast_profit two_transactions (started both_succeed)
           (snd (simulateBundle two_transactions true (started both_succeed)))
           (fst (simulateBundle two_transactions true (started both_succeed)))
           [mkReceipt (Some 1) 120000; mkReceipt (Some 1) 46000]
           (10 ^ 16) [10 ^ 18; 0]).
  - by eexists.
  - vm_compute. reflexivity.
  - vm_compute. discriminate.
  - vm_compute. reflexivity.
  - reflexivity.
  - repeat constructor; unfold successful; simpl; discriminate.
  - repeat constructor; simpl; vm_compute; discriminate.
  - vm_compute. reflexivity.
  - vm_compute. reflexivity.
Defined.

(** ** The calldata codec *)

Section CodecProperties.

Import Abi.
Local Arguments word : simpl never.

Lemma Z_of_byte_of_Z z : 0 <= z < 256 -> Z_of_byte (byte_of_Z z) = z.
Proof.
  intros Hz. unfold Z_of_byte, byte_of_Z.
  destruct (Byte.of_N (Z.to_N z)) as [b|] eqn:Hb.
  - apply Byte.to_of_N in Hb. rewrite Hb. lia.
  - apply Byte.of_N_None_iff in Hb. lia.
Qed.

Lemma length_be_bytes n z : length (be_bytes n z) = n.
Proof.
  revert z. induction n as [|n IH]; intros z; simpl; [reflexivity|].
  rewrite length_app, IH. simpl. lia.
Qed.

Lemma length_word z : length (word z) = 32%nat.
Proof. apply length_be_bytes. Qed.

Lemma be_value_snoc bs b : be_value (bs ++ [b]) = be_value bs * 256 + Z_of_byte b.
Proof. unfold be_value. by rewrite fold_left_app. Qed.

Lemma be_value_be_bytes n z :
  0 <= z -> be_value (be_bytes n z) = z mod 256 ^ Z.of_nat n.
Proof.
  revert z. induction n as [|n IH]; intros z Hz.
  - simpl. by rewrite Z.mod_1_r.
  - cbn [be_bytes]. rewrite be_value_snoc, IH by (apply Z.div_pos; lia).
    rewrite Z_of_byte_of_Z by (apply Z.mod_pos_bound; lia).
    rewrite Nat2Z.inj_succ, Z.pow_succ_r by lia.
    rewrite (Z.rem_mul_r z 256 (256 ^ Z.of_nat n)) by lia. lia.
Qed.

Lemma be_value_word z : 0 <= z < 2 ^ 256 -> be_value (word z) = z.
Proof.
  intros Hz. unfold word. rewrite be_value_be_bytes by lia.
  change (256 ^ Z.of_nat 32) with (2 ^ 256). apply Z.mod_small. lia.
Qed.

Lemma length_words ws : len (flat_map word ws) = 32 * len ws.
Proof.
  unfold len. induction ws as [|w ws IH]; [reflexivity|].
  cbn [flat_map]. rewrite length_app, length_word. cbn [length]. lia.
Qed.

Lemma skipn_words (i : nat) ws :
  skipn (32 * i) (flat_map word ws) = flat_map word (skipn i ws).
Proof.
  revert ws. induction i as [|i IH]; intros ws.
  - reflexivity.
  - destruct ws as [|w ws].
    + by rewrite !skipn_nil.
    + cbn [flat_map skipn].
      replace (32 * S i)%nat with (length (word w) + 32 * i)%nat
        by (rewrite length_word; lia).
      rewrite skipn_app, skipn_all2 by lia.
      replace (length (word w) + 32 * i - length (word w))%nat with (32 * i)%nat by lia.
      simpl. apply IH.
Qed.

(** Reading the [i]-th word of a sequence of words. *)
Lemma read_word_words ws (i : nat) w :
  ws !! i = Some w -> 0 <= w < 2 ^ 256 ->
  read_word (flat_map word ws) (32 * Z.of_nat i) = Some w.
Proof.
  intros Hi Hw. unfold read_word.
  pose proof (lookup_lt_Some _ _ _ Hi) as Hlt.
  rewrite length_words. unfold len.
  destruct (Z.leb_spec 0 (32 * Z.of_nat i)); [|lia].
  destruct (Z.leb_spec (32 * Z.of_nat i + 32) (32 * Z.of_nat (length ws))); [|lia].
  simpl. f_equal.
  replace (Z.to_nat (32 * Z.of_nat i)) with (32 * i)%nat by lia.
  rewrite skipn_words.
  rewrite <- (take_drop_middle ws i w Hi).
  rewrite skipn_app, skipn_all2 by (rewrite length_take; lia).
  rewrite length_take. replace (i - i `min` length ws)%nat with 0%nat by lia.
  cbn [app skipn flat_map].
  rewrite <- (length_word w) at 1. rewrite firstn_app, firstn_all, Nat.sub_diag.
  rewrite take_0, app_nil_r. by apply be_value_word.
Qed.

Lemma read_address_words ws (i : nat) a :
  ws !! i = Some a -> 0 <= a < 2 ^ 160 ->
  read_address (flat_map word ws) (32 * Z.of_nat i) = Some a.
Proof.
  intros Hi Ha. unfold read_address.
  rewrite (read_word_words ws i a Hi) by lia. simpl.
  destruct (Z.ltb_spec a (2 ^ 160)); [reflexivity | lia].
Qed.

Lemma mapM_seq_lookup {A} (f : nat -> option A) (l : list A) : forall j,
  (forall i x, l !! i = Some x -> f (j + i)%nat = Some x) ->
  mapM f (seq j (length l)) = Some l.
Proof.
  induction l as [|x l IH]; intros j Hf; simpl; [reflexivity|].
  rewrite <- (Nat.add_0_r j) at 1. rewrite (Hf 0%nat x eq_refl). simpl.
  rewrite (IH (S j)); [reflexivity|].
  intros i y Hy. replace (S j + i)%nat with (j + S i)%nat by lia. by apply Hf.
Qed.

(** The calldata arguments of a five-argument swap are six words followed by
    the words of the path. *)
Lemma encode_swap a b path to dl :
  encode [VUint a; VUint b; VAddressArray path; VAddress to; VUint dl]
  = flat_map word ([a; b; 160; to; dl; len path] ++ path).
Proof.
  unfold encode. cbn -[word Z.mul Z.add].
  change (32 * len [VUint a; VUint b; VAddressArray path; VAddress to; VUint dl])
    with 160.
  rewrite !app_nil_r, <- !app_assoc. reflexivity.
Qed.

Lemma decode_swap a b path to dl :
  0 <= a < 2 ^ 256 -> 0 <= b < 2 ^ 256 -> 0 <= dl < 2 ^ 256 ->
  0 <= to < 2 ^ 160 -> Forall (fun t => 0 <= t < 2 ^ 160) path ->
  len path < 2 ^ 256 ->
  decode_params (flat_map word ([a; b; 160; to; dl; len path] ++ path))
    [uint256; uint256; address_array; address; uint256] 0
  = Some [VUint a; VUint b; VAddressArray path; VAddress to; VUint dl].
Proof.
  intros Ha Hb Hdl Hto Hpath Hlen.
  set (ws := [a; b; 160; to; dl; len path] ++ path).
  assert (Hn : 0 <= len path) by (unfold len; lia).
  set (body := flat_map word ws).
  assert (H0 : read_word body 0 = Some a)
    by exact (read_word_words ws 0 a eq_refl Ha).
  assert (H1 : read_word body (0 + 32) = Some b)
    by exact (read_word_words ws 1 b eq_refl Hb).
  assert (H2 : read_word body (0 + 32 + 32) = Some 160)
    by (refine (read_word_words ws 2 160 eq_refl _); lia).
  assert (H3 : read_address body (0 + 32 + 32 + 32) = Some to)
    by exact (read_address_words ws 3 to eq_refl Hto).
  assert (H4 : read_word body (0 + 32 + 32 + 32 + 32) = Some dl)
    by exact (read_word_words ws 4 dl eq_refl Hdl).
  assert (H5 : read_word body 160 = Some (len path))
    by (refine (read_word_words ws 5 (len path) eq_refl _); lia).
  cbn [decode_params]. unfold decode_param.
  rewrite H0, H1, H2, H3, H4.
  cbn [mbind option_bind fmap option_fmap option_map].
  rewrite H5. cbn [mbind option_bind].
  unfold body.
  rewrite length_words. unfold ws at 1. unfold len at 2. rewrite length_app.
  cbn [length].
  destruct (Z.leb_spec (160 + 32 + 32 * len path)
              (32 * Z.of_nat (6 + length path))) as [_|Hbad];
    [|unfold len in Hbad; lia].
  replace (Z.to_nat (len path)) with (length path) by (unfold len; lia).
  rewrite (mapM_seq_lookup _ path 0); [reflexivity|].
  intros i t Hi.
  replace (160 + 32 + 32 * Z.of_nat (0 + i)) with (32 * Z.of_nat (6 + i)) by lia.
  apply read_address_words.
  - unfold ws. rewrite lookup_app_r by (cbn [length]; lia).
    cbn [length]. replace (6 + i - 6)%nat with i by lia. exact Hi.
  - eapply (proj1 (Forall_lookup _ _) Hpath); eassumption.
Qed.

End CodecProperties.

(** ** The decoder of the listener *)

Section DecoderProperties.

Import Js Abi MempoolListener.
Context {S : Type}.

Lemma known_router_interface router :
  router ∈ knownRouters -> dexInterfaces !! router = Some UNISWAP_V2_ROUTER.
Proof.
  unfold knownRouters. rewrite !elem_of_cons, elem_of_nil.
  intros [->|[->|[->|[]]]]; vm_compute; reflexivity.
Qed.

Lemma in_range_true z n : 0 <= z < n -> (0 <=? z) && (z <? n) = true.
Proof.
  intros Hz. destruct (Z.leb_spec 0 z); [|lia]. destruct (Z.ltb_spec z n); [|lia].
  reflexivity.
Qed.

Lemma encodeFunctionData_swap (st : S) a b path to dl :
  0 <= a < 2 ^ 256 -> 0 <= b < 2 ^ 256 -> 0 <= dl < 2 ^ 256 ->
  0 <= to < 2 ^ 160 -> Forall (fun t => 0 <= t < 2 ^ 160) path ->
  encodeFunctionData UNISWAP_V2_ROUTER "swapExactTokensForTokens"
    [VUint a; VUint b; VAddressArray path; VAddress to; VUint dl] st
  = (Ok ([x38; xed; x17; x39]
         ++ encode [VUint a; VUint b; VAddressArray path; VAddress to; VUint dl]), st).
Proof.
  intros Ha Hb Hdl Hto Hpath. unfold encodeFunctionData.
  change (getFunction UNISWAP_V2_ROUTER "swapExactTokensForTokens")
    with (Some swapExactTokensForTokens_fragment).
  cbn [inputs selector swapExactTokensForTokens_fragment length Nat.eqb zip zip_with
       forallb fst snd well_typed andb].
  rewrite !in_range_true by assumption.
  assert (Hall : forallb (fun a0 : Z => (0 <=? a0) && (a0 <? 2 ^ 160)) path = true).
  { apply forallb_forall. intros t Ht. apply in_range_true.
    rewrite Forall_forall in Hpath. apply Hpath. by apply list_elem_of_In. }
  rewrite Hall. reflexivity.
Qed.

Lemma parseTransaction_swap (st : S) rest :
  parseTransaction UNISWAP_V2_ROUTER ([x38; xed; x17; x39] ++ rest) st
  = match decode_params rest [uint256; uint256; address_array; address; uint256] 0 with
    | Some vs => (Ok (Some (mkDescription "swapExactTokensForTokens" vs)), st)
    | None => (Throw (ErrorObj "data out-of-bounds"), st)
    end.
Proof.
  unfold parseTransaction.
  change (find _ UNISWAP_V2_ROUTER) with (Some swapExactTokensForTokens_fragment).
  change (skipn 4 ([x38; xed; x17; x39] ++ rest)) with rest.
  cbn [inputs name swapExactTokensForTokens_fragment].
  destruct (decode_params rest _ 0); reflexivity.
Qed.

(** C5: for a known router, in-range amounts and a non-empty path of
    addresses, [encodeFunctionData] produces calldata for
    [swapExactTokensForTokens(a, b, path, to, dl)], and [decodeTransaction]
    turns that calldata into a decoded call with the five arguments,
    [isSwap = true], [amountIn = a], [path = path], [tokenIn = path[0]]
    and [tokenOut] the last element of [path]. *)
Theorem decode_encode_swapExactTokensForTokens (st : S) router a b path to dl :
  router ∈ knownRouters ->
  0 <= a < 2 ^ 256 -> 0 <= b < 2 ^ 256 -> 0 <= dl < 2 ^ 256 ->
  0 <= to < 2 ^ 160 -> Forall (fun t => 0 <= t < 2 ^ 160) path ->
  path <> [] -> len path < 2 ^ 256 ->
  exists data d,
    encodeFunctionData UNISWAP_V2_ROUTER "swapExactTokensForTokens"
      [VUint a; VUint b; VAddressArray path; VAddress to; VUint dl] st
    = (Ok data, st) /\
    decodeTransaction router data st = (Ok (Some d), st) /\
    contractAddress d = router /\
    functionName d = "swapExactTokensForTokens" /\
    args d = [VUint a; VUint b; VAddressArray path; VAddress to; VUint dl] /\
    isSwap d = true /\
    amountIn d = Some (toString a) /\
    MempoolListener.path d = Some path /\
    tokenIn d = head path /\
    tokenOut d = last path.
Proof.
  intros Hrouter Ha Hb Hdl Hto Hpath Hne Hlen.
  destruct path as [|t0 rest]; [contradiction|].
  destruct (last (t0 :: rest)) as [tl|] eqn:Hl.
  2:{ apply last_None in Hl. discriminate. }
  eexists. eexists. split; [by apply encodeFunctionData_swap|].
  unfold decodeTransaction, try_catch, bind.
  rewrite (known_router_interface router Hrouter).
  rewrite parseTransaction_swap, encode_swap, decode_swap by assumption.
  cbn [td_name td_args].
  change (includes "swap" "swapExactTokensForTokens") with true.
  change (String.eqb "swapExactTokensForTokens" "swapExactTokensForTokens") with true.
  cbv iota. unfold uint_toString, array_arg, ret. cbn [lookup list_lookup].
  unfold result_index, Address in *.
  match goal with
  | |- context [if ?c then ?x else None] =>
      assert (Hc : c = true)
        by (apply Z.leb_le; unfold len; cbn [length]; lia);
      assert (Hlast : x = Some tl)
        by (rewrite <- Hl, last_lookup; f_equal; unfold len;
            cbn [length Init.Nat.pred]; lia);
      rewrite Hc, Hlast
  end.
  change ((t0 :: rest) !! Z.to_nat 0) with (Some t0).
  split; [reflexivity|]. cbn. by repeat split.
Qed.

End DecoderProperties.

Lemma decode_encode_swapExactTokensForTokens_witness :
  exists data d,
    Abi.encodeFunctionData Abi.UNISWAP_V2_ROUTER "swapExactTokensForTokens"
      PlainNode.swap_args tt = (Ok data, tt) /\
    MempoolListener.decodeTransaction 0x60aE616a2155Ee3d9A68541Ba4544862310933d4 data tt
    = (Ok (Some d), tt) /\
    MempoolListener.isSwap d = true /\
    MempoolListener.amountIn d = Some "1000000000000000000" /\
    MempoolListener.path d = Some [Constants.WAVAX; Constants.USDC] /\
    MempoolListener.tokenIn d = Some Constants.WAVAX /\
    MempoolListener.tokenOut d = Some Constants.USDC.
Proof.
  destruct (decode_encode_swapExactTokensForTokens tt
              0x60aE616a2155Ee3d9A68541Ba4544862310933d4
              (10 ^ 18) 0 [Constants.WAVAX; Constants.USDC]
              0xf39Fd6e51aad88F6F4ce6aB8827279cffFb92266 1700000000)
    as (data & d & Henc & Hdec & _ & _ & _ & Hswap & Hin & Hpath & Htin & Htout).
  - vm_compute. by left.
  - vm_compute. split; [discriminate | reflexivity].
  - vm_compute. split; [discriminate | reflexivity].
  - vm_compute. split; [discriminate | reflexivity].
  - vm_compute. split; [discriminate | reflexivity].
  - repeat constructor; vm_compute; try discriminate; reflexivity.
  - discriminate.
  - vm_compute. reflexivity.
  - exists data, d. repeat split; assumption.
Defined.

(** ** The cache *)

Section CacheProperties.

Import Js MempoolListener ListenerObservations.
Implicit Types r : Redis.t EnrichedTransaction.
Implicit Types d : gmap string (Redis.entry EnrichedTransaction).

(** On a connection without scheduled faults a command runs its effect. *)
Lemma run_reliable {A} c
    (f : gmap string (Redis.entry EnrichedTransaction)
         -> outcome A * gmap string (Redis.entry EnrichedTransaction)) r :
  Redis.faults r = [] ->
  Redis.run c f r
  = (fst (f (Redis.db r)),
     Redis.mkRedis (snd (f (Redis.db r))) [] (Redis.history r ++ [c])).
Proof.
  intros Hf. unfold Redis.run. rewrite Hf. by destruct (f (Redis.db r)).
Qed.

(** A command either fails without touching the keys, or runs its effect. *)
Lemma run_cases {A} c
    (f : gmap string (Redis.entry EnrichedTransaction)
         -> outcome A * gmap string (Redis.entry EnrichedTransaction)) r o r' :
  Redis.run c f r = (o, r') ->
  (Redis.db r' = Redis.db r /\ Redis.history r' = Redis.history r /\ exists e, o = Throw e)
  \/ (o = fst (f (Redis.db r)) /\ Redis.db r' = snd (f (Redis.db r))
      /\ Redis.history r' = Redis.history r ++ [c]
      /\ Redis.faults r' = tail (Redis.faults r)).
Proof.
  unfold Redis.run. intros Hrun.
  destruct (Redis.faults r) as [|[|] fs].
  - right. destruct (f (Redis.db r)). by inversion Hrun.
  - left. inversion Hrun; subst; simpl. eauto.
  - right. destruct (f (Redis.db r)). by inversion Hrun.
Qed.

Lemma storeTransaction_returns tx r : fst (storeTransaction tx r) = Ok tt.
Proof.
  unfold storeTransaction, try_catch.
  match goal with |- context [let (_, _) := ?b r in _] => destruct (b r) as [[[]|e] r'] end;
    reflexivity.
Qed.

(** A transaction whose decoded arguments hold a bigint is not stored:
    [JSON.stringify] throws before the first command is issued. *)
Lemma storeTransaction_bigint tx r call :
  decodedCall tx = Some call ->
  existsb is_bigint (args call) = true ->
  storeTransaction tx r = (Ok tt, r).
Proof.
  intros Hcall Hbig.
  unfold storeTransaction, try_catch, bind, JSON_stringify.
  by rewrite Hcall, Hbig.
Qed.

Lemma JSON_stringify_serializable {S} tx (s : S) :
  serializable tx -> JSON_stringify tx s = (Ok tx, s).
Proof.
  unfold serializable, JSON_stringify. destruct (decodedCall tx); [|reflexivity].
  by intros ->.
Qed.

(** What [storeTransaction] does with a transaction that serializes and is
    no swap, on a reliable connection. *)
Lemma storeTransaction_plain tx r :
  Redis.faults r = [] -> serializable tx -> is_swap tx = false ->
  storeTransaction tx r
  = (Ok tt,
     Redis.mkRedis
       (<[tx_key (hash tx) := Redis.mkEntry (Redis.RString tx) (Some 300)]> (Redis.db r))
       []
       (Redis.history r ++ [Redis.SETEX (tx_key (hash tx)) 300])).
Proof.
  intros Hf Hser Hswap.
  unfold storeTransaction, try_catch, bind.
  rewrite (JSON_stringify_serializable tx r Hser).
  unfold Redis.setEx. rewrite run_reliable by assumption.
  cbn -[tx_key]. rewrite Hswap. reflexivity.
Qed.

Lemma tx_key_not_swap_key h h' : tx_key h <> swap_key h'.
Proof. unfold tx_key, swap_key. cbn. by intros [=]. Qed.

Lemma tx_key_not_queue h : tx_key h <> swap_queue.
Proof. unfold tx_key, swap_queue. cbn. by intros [=]. Qed.

Lemma swap_key_not_queue h : swap_key h <> swap_queue.
Proof. unfold swap_key, swap_queue. cbn. by intros [=]. Qed.

(** [LTRIM key 0 999] keeps the first 1000 elements. *)
Lemma range_0_999 l : Redis.range l 0 999 = take 1000 l.
Proof.
  unfold Redis.range. cbn [Z.ltb Z.compare].
  destruct (Z.ltb_spec (Z.min 999 (Z.of_nat (length l) - 1)) 0) as [Hneg|Hpos].
  - destruct l; [reflexivity | cbn [length] in Hneg; lia].
  - change (Z.to_nat 0) with 0%nat. rewrite drop_0, Z.sub_0_r.
    destruct (Z.le_gt_cases (Z.of_nat (length l)) 1000) as [Hshort|Hlong].
    + rewrite Z.min_r by lia.
      replace (Z.to_nat (Z.of_nat (length l) - 1 + 1)) with (length l) by lia.
      rewrite firstn_all. symmetry. apply take_ge. lia.
    + rewrite Z.min_l by lia. reflexivity.
Qed.

(** What it does with a swap that serializes: both keys are written with
    the mempool TTL, the hash is pushed on the queue, and the queue keeps
    its first 1000 entries. *)
Lemma storeTransaction_swap tx r queue :
  Redis.faults r = [] -> serializable tx -> is_swap tx = true ->
  queue = match Redis.db r !! swap_queue with
          | Some (Redis.mkEntry (Redis.RList l) _) => l
          | _ => []
          end ->
  (forall v e, Redis.db r !! swap_queue <> Some (Redis.mkEntry (Redis.RString v) e)) ->
  let r' := snd (storeTransaction tx r) in
  Redis.db r' !! tx_key (hash tx)
    = Some (Redis.mkEntry (Redis.RString tx) (Some Constants.MEMPOOL_TTL)) /\
  Redis.db r' !! swap_key (hash tx)
    = Some (Redis.mkEntry (Redis.RString tx) (Some Constants.MEMPOOL_TTL)) /\
  (exists e, Redis.db r' !! swap_queue
             = Some (Redis.mkEntry (Redis.RList (take 1000 (hash tx :: queue))) e)) /\
  Redis.history r'
  = Redis.history r ++
    [ Redis.SETEX (tx_key (hash tx)) 300; Redis.SETEX (swap_key (hash tx)) 300;
      Redis.LPUSH swap_queue (hash tx); Redis.LTRIM swap_queue 0 999 ].
Proof.
  intros Hf Hser Hswap Hqueue Hlist r'.
  set (d2 := <[swap_key (hash tx) := Redis.mkEntry (Redis.RString tx) (Some 300)]>
               (<[tx_key (hash tx) := Redis.mkEntry (Redis.RString tx) (Some 300)]>
                  (Redis.db r))).
  assert (Hrun : exists e,
    storeTransaction tx r
    = (Ok tt,
       Redis.mkRedis
         (<[swap_queue := Redis.mkEntry (Redis.RList (take 1000 (hash tx :: queue))) e]>
            (<[swap_queue := Redis.mkEntry (Redis.RList (hash tx :: queue)) e]> d2))
         []
         (Redis.history r ++
          [ Redis.SETEX (tx_key (hash tx)) 300; Redis.SETEX (swap_key (hash tx)) 300;
            Redis.LPUSH swap_queue (hash tx); Redis.LTRIM swap_queue 0 999 ]))).
  { unfold storeTransaction, try_catch, bind.
    rewrite (JSON_stringify_serializable tx r Hser).
    unfold Redis.setEx at 1. rewrite run_reliable by assumption.
    cbn [fst snd Z.leb Z.compare Constants.MEMPOOL_TTL]. rewrite Hswap.
    rewrite (JSON_stringify_serializable tx _ Hser).
    unfold Redis.setEx. rewrite run_reliable by reflexivity.
    cbn [fst snd Z.leb Z.compare Constants.MEMPOOL_TTL Redis.db Redis.history].
    unfold Redis.lPush. rewrite run_reliable by reflexivity.
    cbn [Redis.db Redis.history].
    rewrite lookup_insert_ne by apply swap_key_not_queue.
    rewrite lookup_insert_ne by apply tx_key_not_queue.
    fold d2.
    destruct (Redis.db r !! swap_queue) as [[[v|l] e0]|] eqn:Hq;
      [exfalso; by eapply Hlist | exists e0 | exists None];
      subst queue;
      cbn [fst snd];
      (unfold Redis.lTrim; rewrite run_reliable by reflexivity);
      cbn [Redis.db Redis.history fst snd];
      rewrite lookup_insert_eq, range_0_999;
      cbn [take firstn fst snd Redis.db Redis.history];
      rewrite <- !app_assoc; reflexivity. }
  destruct Hrun as [e Hrun]. subst r'. rewrite Hrun.
  cbn [snd Redis.db Redis.history Constants.MEMPOOL_TTL].
  repeat split.
  - rewrite !lookup_insert_ne by (apply not_eq_sym, tx_key_not_queue).
    unfold d2. rewrite lookup_insert_ne by (apply not_eq_sym, tx_key_not_swap_key).
    by rewrite lookup_insert_eq.
  - rewrite !lookup_insert_ne by (apply not_eq_sym, swap_key_not_queue).
    unfold d2. by rewrite lookup_insert_eq.
  - exists e. by rewrite lookup_insert_eq.
Qed.

(** *** The periodic cleanup *)

Lemma cleanup_loop_reliable keys : forall n r,
  Redis.faults r = [] ->
  exists n' h,
    cleanup_loop keys n r = (Ok n', Redis.mkRedis (sweep keys (Redis.db r)) [] h).
Proof.
  induction keys as [|key rest IH]; intros n r Hf.
  - exists n, (Redis.history r). destruct r as [d fs h]. simpl in *. by subst.
  - cbn [cleanup_loop sweep]. unfold bind at 1. unfold Redis.ttl.
    rewrite run_reliable by assumption. cbn [fst snd].
    destruct ((Redis.ttl_of (Redis.db r) key =? -1)
              || (Redis.ttl_of (Redis.db r) key <=? 0)).
    + unfold bind, Redis.del. rewrite run_reliable by reflexivity.
      cbn [fst snd Redis.db]. exact (IH _ (Redis.mkRedis _ [] _) eq_refl).
    + exact (IH _ (Redis.mkRedis _ [] _) eq_refl).
Qed.

Lemma cleanupOldEntries_reliable r :
  Redis.faults r = [] ->
  exists h,
    cleanupOldEntries r
    = (Ok tt,
       Redis.mkRedis
         (sweep (List.filter (String.prefix Constants.REDIS_KEY_PREFIX)
                             (fst <$> map_to_list (Redis.db r)))
                (Redis.db r))
         [] h).
Proof.
  intros Hf. unfold cleanupOldEntries, try_catch, bind, Redis.keys.
  rewrite run_reliable by assumption. cbn [fst snd].
  match goal with
  | |- context [cleanup_loop ?ks ?n ?r0] =>
      destruct (cleanup_loop_reliable ks n r0 eq_refl) as (n' & h & ->)
  end.
  by exists h.
Qed.

Lemma ttl_of_delete_ne d key key' :
  key <> key' -> Redis.ttl_of (delete key d) key' = Redis.ttl_of d key'.
Proof. intros Hne. unfold Redis.ttl_of. by rewrite lookup_delete_ne. Qed.

Lemma sweep_absent keys : forall d key, d !! key = None -> sweep keys d !! key = None.
Proof.
  induction keys as [|k rest IH]; intros d key Hkey; [assumption|].
  cbn [sweep]. apply IH.
  destruct ((Redis.ttl_of d k =? -1) || (Redis.ttl_of d k <=? 0)); [|assumption].
  destruct (decide (k = key)) as [->|Hne].
  - apply lookup_delete_eq.
  - by rewrite lookup_delete_ne.
Qed.

Lemma sweep_deleted keys : forall d key,
  key ∈ keys -> Redis.ttl_of d key <= 0 -> sweep keys d !! key = None.
Proof.
  induction keys as [|k rest IH]; intros d key Hin Httl.
  - by apply elem_of_nil in Hin.
  - cbn [sweep]. destruct (decide (k = key)) as [->|Hne].
    + apply sweep_absent.
      assert (Hc : (Redis.ttl_of d key =? -1) || (Redis.ttl_of d key <=? 0) = true).
      { apply orb_true_iff. right. by apply Z.leb_le. }
      rewrite Hc. apply lookup_delete_eq.
    + apply elem_of_cons in Hin as [->|Hin]; [done|].
      apply IH; [assumption|].
      destruct ((Redis.ttl_of d k =? -1) || (Redis.ttl_of d k <=? 0)); [|assumption].
      by rewrite ttl_of_delete_ne.
Qed.

Lemma sweep_kept keys : forall d key,
  0 < Redis.ttl_of d key -> sweep keys d !! key = d !! key.
Proof.
  induction keys as [|k rest IH]; intros d key Httl; [reflexivity|].
  cbn [sweep].
  destruct ((Redis.ttl_of d k =? -1) || (Redis.ttl_of d k <=? 0)) eqn:Hc;
    [|by apply IH].
  assert (Hne : k <> key).
  { intros ->. apply orb_true_iff in Hc as [Hc|Hc]; lia. }
  rewrite IH by (by rewrite ttl_of_delete_ne). by rewrite lookup_delete_ne.
Qed.

Lemma listed_key d key :
  is_Some (d !! key) ->
  String.prefix Constants.REDIS_KEY_PREFIX key = true ->
  key ∈ List.filter (String.prefix Constants.REDIS_KEY_PREFIX) (fst <$> map_to_list d).
Proof.
  intros [e He] Hp. apply list_elem_of_In, filter_In. split; [|assumption].
  apply list_elem_of_In, list_elem_of_fmap. exists (key, e). split; [reflexivity|].
  by apply elem_of_map_to_list.
Qed.

(** *** The swap queue never gets a time to live *)

Lemma preserves_ret {A} P (a : A) : preserves P (ret a).
Proof. intros r o r' [= <- <-]. done. Qed.

Lemma preserves_throw {A} P e : preserves (A:=A) P (throw e).
Proof. intros r o r' [= <- <-]. done. Qed.

Lemma preserves_bind {A B} P (m : M _ A) (k : A -> M _ B) :
  preserves P m -> (forall a, preserves P (k a)) -> preserves P (bind m k).
Proof.
  intros Hm Hk r o r' Hrun HP. unfold bind in Hrun.
  destruct (m r) as [[a|e] r1] eqn:Hmr.
  - eapply Hk; [eassumption|]. eapply Hm; eassumption.
  - inversion Hrun; subst. eapply Hm; eassumption.
Qed.

Lemma preserves_try_catch {A} P (m : M _ A) handler :
  preserves P m -> (forall e, preserves P (handler e)) -> preserves P (try_catch m handler).
Proof.
  intros Hm Hh r o r' Hrun HP. unfold try_catch in Hrun.
  destruct (m r) as [[a|e] r1] eqn:Hmr.
  - inversion Hrun; subst. eapply Hm; eassumption.
  - eapply Hh; [eassumption|]. eapply Hm; eassumption.
Qed.

Lemma preserves_run {A} P c
    (f : gmap string (Redis.entry EnrichedTransaction)
         -> outcome A * gmap string (Redis.entry EnrichedTransaction)) :
  (forall d, P d -> P (snd (f d))) -> preserves P (Redis.run c f).
Proof.
  intros Hf r o r' Hrun HP.
  apply run_cases in Hrun as [(-> & _) | (_ & -> & _)]; [assumption | by apply Hf].
Qed.

Lemma preserves_JSON_stringify P tx : preserves P (JSON_stringify tx).
Proof.
  unfold JSON_stringify. destruct (decodedCall tx) as [call|];
    [destruct (existsb is_bigint (args call))|];
    auto using preserves_ret, preserves_throw.
Qed.

Lemma setEx_keeps_queue key seconds v :
  key <> swap_queue -> preserves queue_untimed (Redis.setEx key seconds v).
Proof.
  intros Hne. apply preserves_run. intros d Hd.
  destruct (seconds <=? 0); [assumption|]. cbn [snd].
  intros e He. rewrite lookup_insert_ne in He by assumption. by apply Hd.
Qed.

Lemma lPush_keeps_queue key element : preserves queue_untimed (Redis.lPush key element).
Proof.
  apply preserves_run. intros d Hd.
  destruct (d !! key) as [[[v|l] e0]|] eqn:Hkey; cbn [snd]; [assumption| |];
    intros e He; (destruct (decide (key = swap_queue)) as [->|Hne];
      [rewrite lookup_insert_eq in He | rewrite lookup_insert_ne in He by assumption;
                                         by apply Hd]).
  - inversion He; subst; cbn. by apply (Hd _ Hkey).
  - by inversion He.
Qed.

Lemma lTrim_keeps_queue key start stop :
  preserves queue_untimed (Redis.lTrim key start stop).
Proof.
  apply preserves_run. intros d Hd.
  destruct (d !! key) as [[[v|l] e0]|] eqn:Hkey; cbn [snd]; [assumption| |assumption].
  destruct (Redis.range l start stop); cbn [snd]; intros e He.
  - destruct (decide (key = swap_queue)) as [->|Hne].
    + by rewrite lookup_delete_eq in He.
    + rewrite lookup_delete_ne in He by assumption. by apply Hd.
  - destruct (decide (key = swap_queue)) as [->|Hne].
    + rewrite lookup_insert_eq in He. inversion He; subst; cbn. by apply (Hd _ Hkey).
    + rewrite lookup_insert_ne in He by assumption. by apply Hd.
Qed.

Lemma del_keeps_queue key : preserves queue_untimed (Redis.del key).
Proof.
  apply preserves_run. intros d Hd. cbn [snd]. intros e He.
  destruct (decide (key = swap_queue)) as [->|Hne].
  - by rewrite lookup_delete_eq in He.
  - rewrite lookup_delete_ne in He by assumption. by apply Hd.
Qed.

Lemma storeTransaction_keeps_queue tx : preserves queue_untimed (storeTransaction tx).
Proof.
  unfold storeTransaction.
  apply preserves_try_catch; [|intros; apply preserves_ret].
  apply preserves_bind; [apply preserves_JSON_stringify | intros json].
  apply preserves_bind; [apply setEx_keeps_queue, tx_key_not_queue | intros _].
  destruct (is_swap tx); [|apply preserves_ret].
  apply preserves_bind; [apply preserves_JSON_stringify | intros json'].
  apply preserves_bind; [apply setEx_keeps_queue, swap_key_not_queue | intros _].
  apply preserves_bind; [apply lPush_keeps_queue | intros _].
  apply lTrim_keeps_queue.
Qed.

Lemma cleanup_loop_keeps_queue keys : forall n, preserves queue_untimed (cleanup_loop keys n).
Proof.
  induction keys as [|key rest IH]; intros n; cbn [cleanup_loop];
    [apply preserves_ret|].
  apply preserves_bind; [by apply preserves_run | intros t].
  destruct ((t =? -1) || (t <=? 0)); [|apply IH].
  apply preserves_bind; [apply del_keeps_queue | intros _; apply IH].
Qed.

Lemma cleanupOldEntries_keeps_queue : preserves queue_untimed cleanupOldEntries.
Proof.
  unfold cleanupOldEntries.
  apply preserves_try_catch; [|intros; apply preserves_ret].
  apply preserves_bind; [by apply preserves_run | intros keys].
  apply preserves_bind; [apply cleanup_loop_keeps_queue | intros; apply preserves_ret].
Qed.

Lemma reached_queue_untimed r : listener_reaches r -> queue_untimed (Redis.db r).
Proof.
  induction 1 as [r Hnone|tx r _ IH|r _ IH].
  - intros e He. congruence.
  - eapply storeTransaction_keeps_queue; [|exact IH]. apply surjective_pairing.
  - eapply cleanupOldEntries_keeps_queue; [|exact IH]. apply surjective_pairing.
Qed.

(** C10: on a reliable connection, a run of the cleanup deletes every key
    under the configured prefix whose TTL is -1; the swap queue, which the
    listener only ever creates and extends by left-push and trim, has no
    time to live in any state the listener reaches, so the run leaves no
    swap queue behind. *)
Theorem cleanup_deletes_keys_without_expiry r :
  Redis.faults r = [] ->
  let r' := snd (cleanupOldEntries r) in
  (forall key,
     String.prefix Constants.REDIS_KEY_PREFIX key = true ->
     Redis.ttl_of (Redis.db r) key = -1 ->
     Redis.db r' !! key = None) /\
  (listener_reaches r ->
     (forall e, Redis.db r !! swap_queue = Some e -> Redis.ttl_of (Redis.db r) swap_queue = -1) /\
     Redis.db r' !! swap_queue = None).
Proof.
  intros Hf r'. destruct (cleanupOldEntries_reliable r Hf) as [h Hrun].
  subst r'. rewrite Hrun. cbn [snd Redis.db].
  assert (Hdel : forall key,
    String.prefix Constants.REDIS_KEY_PREFIX key = true ->
    Redis.ttl_of (Redis.db r) key = -1 ->
    sweep (List.filter (String.prefix Constants.REDIS_KEY_PREFIX)
                       (fst <$> map_to_list (Redis.db r))) (Redis.db r) !! key = None).
  { intros key Hp Httl. apply sweep_deleted; [|lia].
    apply listed_key; [|assumption].
    unfold Redis.ttl_of in Httl. destruct (Redis.db r !! key); [by eexists | lia]. }
  split; [exact Hdel|].
  intros Hreach. pose proof (reached_queue_untimed r Hreach) as Hq.
  assert (Httl : forall e, Redis.db r !! swap_queue = Some e ->
                           Redis.ttl_of (Redis.db r) swap_queue = -1).
  { intros e He. unfold Redis.ttl_of. rewrite He. by rewrite (Hq e He). }
  split; [exact Httl|].
  destruct (Redis.db r !! swap_queue) as [e|] eqn:He.
  - apply Hdel; [reflexivity | by eapply Httl].
  - by apply sweep_absent.
Qed.

End CacheProperties.

(** ** Decoded swaps and the cache *)

Section StoredSwaps.

Import Js Abi MempoolListener ListenerObservations.

Lemma dexInterfaces_router addr iface :
  dexInterfaces !! addr = Some iface -> iface = UNISWAP_V2_ROUTER.
Proof.
  unfold dexInterfaces, knownRouters.
  cbn [fmap list_fmap list_to_map foldr fst snd].
  rewrite !lookup_insert. repeat case_decide; try congruence.
  rewrite lookup_empty. discriminate.
Qed.

(** Every function of the router whose name contains "swap" takes a [uint]
    as its first argument, which decodes to a bigint. *)
Lemma parsed_swap_starts_with_uint data td :
  parseTransaction UNISWAP_V2_ROUTER data tt = (Ok (Some td), tt) ->
  includes "swap" (td_name td) = true ->
  exists z rest, td_args td = VUint z :: rest.
Proof.
  unfold parseTransaction.
  destruct (find _ UNISWAP_V2_ROUTER) as [f|] eqn:Hfind; [|discriminate].
  apply find_some in Hfind as [Hin _].
  destruct (decode_params (skipn 4 data) (inputs f) 0) as [vs|] eqn:Hdec;
    [|discriminate].
  intros [= <-]. cbn [td_name td_args]. intros Hswap.
  cbn [In UNISWAP_V2_ROUTER] in Hin.
  repeat (destruct Hin as [<-|Hin]; [try discriminate Hswap|]); try contradiction.
  all: cbn [inputs decode_params decode_param] in Hdec;
    destruct (read_word (skipn 4 data) 0) as [z|]; [|discriminate];
    cbn [fmap option_fmap option_map mbind option_bind] in Hdec;
    match type of Hdec with
    | context [?x ≫= _] => destruct x; [|discriminate]
    end;
    inversion Hdec; eauto.
Qed.

Lemma decodeTransaction_parsed addr data call :
  decodeTransaction addr data tt = (Ok (Some call), tt) ->
  exists td,
    parseTransaction UNISWAP_V2_ROUTER data tt = (Ok (Some td), tt) /\
    functionName call = td_name td /\
    args call = td_args td /\
    isSwap call = includes "swap" (td_name td).
Proof.
  unfold decodeTransaction, try_catch, bind.
  destruct (dexInterfaces !! addr) as [iface|] eqn:Hi; [|discriminate].
  apply dexInterfaces_router in Hi as ->.
  destruct (parseTransaction UNISWAP_V2_ROUTER data tt) as [[[td|]|e] []] eqn:Hp;
    try discriminate.
  intros Hcall. exists td. split; [reflexivity|].
  destruct (includes "swap" (td_name td)).
  2:{ inversion Hcall; subst. by repeat split. }
  unfold uint_toString, array_arg, result_index, ret, throw in Hcall.
  repeat (destruct_innermost Hcall; try discriminate Hcall; cbv beta iota in Hcall);
    inversion Hcall; subst; by repeat split.
Qed.

(** A swap that [decodeTransaction] produced holds a bigint argument. *)
Lemma decoded_swap_has_bigint addr data call :
  decodeTransaction addr data tt = (Ok (Some call), tt) ->
  isSwap call = true ->
  existsb is_bigint (args call) = true.
Proof.
  intros Hdec Hswap.
  destruct (decodeTransaction_parsed addr data call Hdec) as (td & Hp & _ & Hargs & Hs).
  rewrite Hs in Hswap.
  destruct (parsed_swap_starts_with_uint data td Hp Hswap) as (z & rest & Hz).
  by rewrite Hargs, Hz.
Qed.

Lemma decodeTransaction_returns addr data :
  exists call, decodeTransaction addr data tt = (Ok call, tt).
Proof.
  unfold decodeTransaction, try_catch.
  match goal with |- context [let (_, _) := ?b tt in _] => destruct (b tt) as [[c|e] []] end;
    eauto.
Qed.

(** Enrichment always succeeds, keeps the hash of the fetched transaction,
    and decodes through [decodeTransaction]. *)
Lemma enrichTransaction_returns clock tx :
  exists etx,
    enrichTransaction clock tx tt = (Ok etx, tt) /\
    hash etx = tx_hash tx /\
    (decodedCall etx = None \/
     exists addr, decodeTransaction addr (tx_data tx) tt = (Ok (decodedCall etx), tt)).
Proof.
  unfold enrichTransaction, bind, ret.
  destruct (tx_to tx) as [recipient|]; [|eexists; repeat split; by left].
  destruct (dexInterfaces !! recipient); [|eexists; repeat split; by left].
  destruct (decodeTransaction_returns recipient (tx_data tx)) as [call Hcall].
  rewrite Hcall. eexists. repeat split. right. by exists recipient.
Qed.

(** C8, where the code departs from it: no swap that the listener decoded
    reaches the cache.  The arguments of the decoded call hold a bigint, so
    [JSON.stringify] throws inside the [try] of [storeTransaction], which
    returns with no command executed and the cache as it was: no
    [tx:<hash>] key, no [swaps:<hash>] key, no push on the swap queue. *)
Theorem decoded_swap_is_not_stored clock tx etx r :
  enrichTransaction clock tx tt = (Ok etx, tt) ->
  is_swap etx = true ->
  storeTransaction etx r = (Ok tt, r).
Proof.
  intros Henrich Hswap.
  destruct (enrichTransaction_returns clock tx) as (etx' & Heq & _ & Hdec).
  rewrite Henrich in Heq. inversion Heq; subst etx'. clear Heq.
  unfold is_swap in Hswap.
  destruct (decodedCall etx) as [call|] eqn:Hcall; [|discriminate].
  destruct Hdec as [Hnone|[addr Hdec]]; [discriminate|].
  apply (storeTransaction_bigint etx r call Hcall).
  by apply (decoded_swap_has_bigint addr (tx_data tx)).
Qed.

End StoredSwaps.

(** ** The pending-transaction handler *)

Section HandlerProperties.

Import Js MempoolListener ListenerObservations.
Context {W : Type} `{Chain W}.
Implicit Types s : MempoolListener.t W.

(** The handler never throws, and goes one of the three ways. *)
Lemma handlePendingTransaction_handled h s :
  exists s', handlePendingTransaction h s = (Ok tt, s') /\ handled h s s'.
Proof.
  unfold handlePendingTransaction, try_catch, bind, get.
  destruct (decide (h ∈ seenTxs s)) as [Hseen|Hnew].
  { rewrite bool_decide_eq_true_2 by assumption. exists s. split; [reflexivity|].
    by apply handled_seen. }
  rewrite bool_decide_eq_false_2 by assumption.
  unfold emit, modify, on_chain. cbn [chain seenTxs redisClient events].
  destruct (getTransaction h (chain s)) as [[[tx|]|e] w] eqn:Hget.
  - unfold set_seen, modify, pure_call, on_redis, emit.
    cbn [chain seenTxs redisClient events].
    destruct (enrichTransaction_returns (now w) tx) as (etx & Hetx & _).
    rewrite Hetx. cbn [fst chain seenTxs redisClient events].
    pose proof (storeTransaction_returns etx (redisClient s)) as Hstore.
    destruct (storeTransaction etx (redisClient s)) as [o r'] eqn:Hst.
    cbn [fst] in Hstore. subst o. cbn [snd seenTxs redisClient chain events].
    destruct (10000 <? Z.of_nat (size ({[h]} ∪ seenTxs s))) eqn:Hbig.
    + eexists. split; [reflexivity|].
      eapply (handled_processed h s _ tx w etx); try eassumption.
      unfold recorded. rewrite Hbig, Hst.
      cbn [seenTxs redisClient chain events snd]. by rewrite <- !app_assoc.
    + eexists. split; [reflexivity|].
      eapply (handled_processed h s _ tx w etx); try eassumption.
      unfold recorded. rewrite Hbig, Hst.
      cbn [seenTxs redisClient chain events snd]. by rewrite <- !app_assoc.
  - eexists. split; [reflexivity|].
    eapply handled_dropped; eauto.
  - eexists. split; [reflexivity|].
    eapply handled_dropped; eauto.
Qed.

Lemma handlePendingTransaction_seen h s :
  h ∈ seenTxs s -> handlePendingTransaction h s = (Ok tt, s).
Proof.
  intros Hseen. unfold handlePendingTransaction, try_catch, bind, get.
  by rewrite bool_decide_eq_true_2.
Qed.

Lemma recorded_bounded h seen : Z.of_nat (size (recorded h seen)) <= 10000.
Proof.
  unfold recorded.
  destruct (Z.ltb_spec 10000 (Z.of_nat (size ({[h]} ∪ seen)))); [|assumption].
  rewrite size_empty. lia.
Qed.

(** One invocation keeps the dedup set within 10 000 entries. *)
Lemma handled_bounded h s s' :
  handled h s s' ->
  Z.of_nat (size (seenTxs s)) <= 10000 ->
  Z.of_nat (size (seenTxs s')) <= 10000.
Proof.
  intros [Hseen ->|o w _ _ _ ->|tx w etx _ _ _ ->] Hbound; cbn [seenTxs];
    auto using recorded_bounded.
Qed.

(** The states after delivering a list of hashes. *)
Lemma deliver_returns hashes : forall s, fst (deliver hashes s) = Ok tt.
Proof.
  induction hashes as [|h rest IH]; intros s; [reflexivity|].
  cbn [deliver]. unfold bind.
  destruct (handlePendingTransaction_handled h s) as (s' & -> & _). apply IH.
Qed.

Lemma deliver_app hashes h s :
  snd (deliver (hashes ++ [h]) s)
  = snd (handlePendingTransaction h (snd (deliver hashes s))).
Proof.
  revert s. induction hashes as [|h0 rest IH]; intros s.
  - cbn [app deliver]. unfold bind, ret. cbn [snd].
    destruct (handlePendingTransaction_handled h s) as (s' & -> & _). reflexivity.
  - cbn [app deliver]. unfold bind.
    destruct (handlePendingTransaction_handled h0 s) as (s' & -> & _). apply IH.
Qed.

(** Induction over the states that deliveries reach from [s0]. *)
Lemma deliver_ind (P : MempoolListener.t W -> Prop) s0 :
  P s0 ->
  (forall h s s', P s -> handled h s s' -> P s') ->
  forall hashes, P (snd (deliver hashes s0)).
Proof.
  intros Hbase Hstep hashes.
  induction hashes as [|h hashes IH] using rev_ind; [exact Hbase|].
  rewrite deliver_app.
  destruct (handlePendingTransaction_handled h (snd (deliver hashes s0)))
    as (s' & Hrun & Hhandled).
  rewrite Hrun. cbn [snd]. eapply Hstep; eassumption.
Qed.

(** An invocation that records a hash and thereby takes the dedup set past
    10 000 leaves it empty. *)
Lemma handlePendingTransaction_clears h s tx w' :
  h ∉ seenTxs s ->
  getTransaction h (chain s) = (Ok (Some tx), w') ->
  10000 < Z.of_nat (size ({[h]} ∪ seenTxs s)) ->
  seenTxs (snd (handlePendingTransaction h s)) = ∅.
Proof.
  intros Hnew Hget Hbig.
  destruct (handlePendingTransaction_handled h s) as (s' & -> & Hh). cbn [snd].
  destruct Hh as [Hseen _|o w0 _ Hget' Hfail _|tx' w0 etx _ _ _ ->].
  - contradiction.
  - rewrite Hget in Hget'. inversion Hget'; subst.
    destruct Hfail as [?|[? ?]]; discriminate.
  - cbn [seenTxs]. unfold recorded.
    destruct (Z.ltb_spec 10000 (Z.of_nat (size ({[h]} ∪ seenTxs s)))); [reflexivity|lia].
Qed.

(** Deliveries one after the other, starting from the listener as
    constructed, keep the dedup set within 10 000 entries. *)
Lemma deliver_bounded (w : W) hashes :
  Z.of_nat (size (seenTxs (snd (deliver hashes (initial w))))) <= 10000.
Proof.
  apply deliver_ind.
  - cbn [initial seenTxs]. rewrite size_empty. lia.
  - intros h s s' Hs Hh. by apply (handled_bounded h s s').
Qed.

(** *** Deduplication *)

Lemma cleared_after_app evs suffix i :
  cleared_after evs i -> cleared_after (evs ++ suffix) i.
Proof.
  intros (k & Hk & Hc). exists k. split; [assumption|]. by apply lookup_app_l_Some.
Qed.

Lemma processed_in_suffix h' etx tail (m : nat) h e :
  (tail = [Cleared] \/ tail = []) ->
  (Fetched h' :: Processed h' etx :: tail) !! m = Some (Processed h e) ->
  m = 1%nat /\ h = h'.
Proof.
  intros Htail Hm. destruct m as [|[|m]]; cbn in Hm.
  - discriminate.
  - inversion Hm. by split.
  - destruct Htail as [-> | ->]; destruct m; discriminate.
Qed.

Lemma handled_remembers h s s' :
  handled h s s' ->
  remembers s /\ reingest_only_after_clear (events s) ->
  remembers s' /\ reingest_only_after_clear (events s').
Proof.
  intros [Hseen ->|o w Hnew _ _ ->|tx w etx Hnew _ _ ->] [Hrem Hre]; [by split| |].
  - cbn [events seenTxs]. split.
    + intros i h0 e Hi. apply lookup_app_Some in Hi as [Hi|[_ Hi]].
      * destruct (Hrem i h0 e Hi) as [Hc|Hin]; [left; by apply cleared_after_app | by right].
      * destruct (i - length (events s))%nat; discriminate.
    + intros i j h0 e1 e2 Hi Hj Hij.
      apply lookup_app_Some in Hj as [Hj|[_ Hj]];
        [|destruct (j - length (events s))%nat; discriminate].
      apply lookup_app_Some in Hi as [Hi|[Hge _]];
        [|apply lookup_lt_Some in Hj; lia].
      destruct (Hre i j h0 e1 e2 Hi Hj Hij) as (k & Hk & Hc).
      exists k. split; [assumption | by apply lookup_app_l_Some].
  - cbn [events seenTxs].
    set (tail := if 10000 <? Z.of_nat (size ({[h]} ∪ seenTxs s)) then [Cleared] else []).
    assert (Htail : tail = [Cleared] \/ tail = [])
      by (unfold tail; destruct (10000 <? _); auto).
    assert (Hend : tail = [Cleared] /\ recorded h (seenTxs s) = ∅
                   \/ tail = [] /\ recorded h (seenTxs s) = {[h]} ∪ seenTxs s)
      by (unfold tail, recorded; destruct (10000 <? _); auto).
    assert (Hnow : forall (i : nat) h0,
              (i < length (events s) + 2)%nat -> h0 ∈ {[h]} ∪ seenTxs s ->
              cleared_after (events s ++ Fetched h :: Processed h etx :: tail) i
              \/ h0 ∈ recorded h (seenTxs s)).
    { intros i h0 Hi Hin. destruct Hend as [[-> _]|[_ ->]]; [left | by right].
      exists (length (events s) + 2)%nat. split; [lia|].
      rewrite lookup_app_r by lia.
      by replace (length (events s) + 2 - length (events s))%nat with 2%nat by lia. }
    split.
    + intros i h0 e Hi. apply lookup_app_Some in Hi as [Hi|[Hge Hi]].
      * destruct (Hrem i h0 e Hi) as [Hc|Hin]; [left; by apply cleared_after_app|].
        apply Hnow; [apply lookup_lt_Some in Hi; lia | by apply elem_of_union_r].
      * apply (processed_in_suffix _ _ _ _ _ _ Htail) in Hi as [Hm ->].
        apply Hnow; [lia | by apply elem_of_union_l, elem_of_singleton].
    + intros i j h0 e1 e2 Hi Hj Hij.
      apply lookup_app_Some in Hj as [Hj|[Hgej Hj]].
      * apply lookup_app_Some in Hi as [Hi|[Hge _]];
          [|apply lookup_lt_Some in Hj; lia].
        destruct (Hre i j h0 e1 e2 Hi Hj Hij) as (k & Hk & Hc).
        exists k. split; [assumption | by apply lookup_app_l_Some].
      * apply (processed_in_suffix _ _ _ _ _ _ Htail) in Hj as [Hm ->].
        apply lookup_app_Some in Hi as [Hi|[Hge Hi]].
        -- destruct (Hrem i h e1 Hi) as [(k & Hk & Hc)|Hin]; [|contradiction].
           exists k. split; [apply lookup_lt_Some in Hc; lia | by apply lookup_app_l_Some].
        -- apply (processed_in_suffix _ _ _ _ _ _ Htail) in Hi as [Hm' _]. lia.
Qed.

(** C6 as amended: a hash that is in the dedup set when it is delivered is
    rejected at once, with no transaction fetched, no cache command issued
    and no state changed; and, invocations running one at a time from the
    listener as constructed, a hash is processed (enriched and handed to
    the store) a second time only after the dedup set was cleared in
    between. *)
Theorem dedup_rejects_seen_and_reingests_only_after_clear (w : W) hashes :
  let s := snd (deliver hashes (initial w)) in
  (forall h, h ∈ seenTxs s -> handlePendingTransaction h s = (Ok tt, s)) /\
  reingest_only_after_clear (events s).
Proof.
  intros s. split.
  - intros h Hseen. by apply handlePendingTransaction_seen.
  - subst s.
    refine (proj2 (deliver_ind
              (fun s => remembers s /\ reingest_only_after_clear (events s))
              (initial w) _ _ hashes)).
    + split.
      * intros i h e Hi. cbn in Hi. discriminate.
      * intros i j h e1 e2 Hi. cbn in Hi. discriminate.
    + intros h s s' Hs Hh. by apply (handled_remembers h s s').
Qed.

End HandlerProperties.

(** ** Runs on the plain node *)

Section PlainNodeRuns.

Import Js MempoolListener PlainNode ListenerObservations.
Implicit Types s : MempoolListener.t Z.

Lemma hex_digit_inj a b :
  0 <= a < 16 -> 0 <= b < 16 -> hex_digit a = hex_digit b -> a = b.
Proof.
  intros Ha Hb Heq. apply (f_equal nat_of_ascii) in Heq. unfold hex_digit in Heq.
  rewrite !nat_ascii_embedding in Heq
    by (destruct (a <? 10), (b <? 10); lia).
  destruct (Z.ltb_spec a 10), (Z.ltb_spec b 10); lia.
Qed.

Lemma hex_digits_inj n : forall z z' acc acc',
  0 <= z -> 0 <= z' ->
  String.length acc = String.length acc' ->
  hex_digits n z acc = hex_digits n z' acc' ->
  z mod 16 ^ Z.of_nat n = z' mod 16 ^ Z.of_nat n /\ acc = acc'.
Proof.
  induction n as [|n IH]; intros z z' acc acc' Hz Hz' Hlen Heq.
  - cbn in Heq. by rewrite !Z.mod_1_r.
  - cbn [hex_digits] in Heq.
    apply IH in Heq as [Hhigh Hacc];
      [| by apply Z.div_pos | by apply Z.div_pos | cbn; by rewrite Hlen].
    inversion Hacc as [[Hdigit Htail]].
    apply hex_digit_inj in Hdigit; [| by apply Z.mod_pos_bound..].
    split; [|reflexivity].
    rewrite Nat2Z.inj_succ, Z.pow_succ_r by lia.
    rewrite (Z.rem_mul_r z 16 (16 ^ Z.of_nat n)) by lia.
    rewrite (Z.rem_mul_r z' 16 (16 ^ Z.of_nat n)) by lia.
    by rewrite Hdigit, Hhigh.
Qed.

(** Distinct numbers below [16^64] have distinct hashes. *)
Lemma tx_hash_of_inj (n m : nat) :
  Z.of_nat n < 16 ^ 64 -> Z.of_nat m < 16 ^ 64 -> tx_hash_of n = tx_hash_of m -> n = m.
Proof.
  intros Hn Hm Heq. unfold tx_hash_of in Heq.
  assert (Hprefix : forall a b : string, "0x" +:+ a = "0x" +:+ b -> a = b)
    by (intros a b Hab; unfold String.append in Hab; congruence).
  apply Hprefix in Heq. rename Heq into Hdigits.
  apply hex_digits_inj in Hdigits as [Hmod _]; [|lia..|reflexivity].
  change (Z.of_nat 64) with 64 in Hmod.
  rewrite !Z.mod_small in Hmod by lia. lia.
Qed.

Lemma burst_NoDup n : Z.of_nat n <= 16 ^ 64 -> NoDup (burst n).
Proof.
  intros Hn. unfold burst. apply NoDup_fmap_2_strong; [|apply NoDup_seq].
  intros i j Hi Hj. apply elem_of_seq in Hi, Hj. apply tx_hash_of_inj; lia.
Qed.

Lemma enrich_transfer clock h :
  enrichTransaction clock (transfer h) tt = (Ok (enriched_transfer clock h), tt).
Proof.
  unfold enrichTransaction, transfer. cbn [tx_to].
  change (dexInterfaces !! 0x70997970C51812dc3A010C7d01b50e0d17dc79C8) with
    (@None (list Abi.FunctionFragment)).
  reflexivity.
Qed.

(** An invocation on a hash that is not in the dedup set, with a reliable
    cache: the transfer is fetched, recorded, enriched and stored. *)
Lemma plain_step h s :
  h ∉ seenTxs s -> Redis.faults (redisClient s) = [] ->
  handlePendingTransaction h s
  = (Ok tt,
     mkListener (recorded h (seenTxs s))
       (Redis.mkRedis
          (<[tx_key h := Redis.mkEntry (Redis.RString (enriched_transfer (chain s) h))
                                       (Some 300)]> (Redis.db (redisClient s)))
          []
          (Redis.history (redisClient s) ++ [Redis.SETEX (tx_key h) 300]))
       (chain s)
       (events s ++ Fetched h :: Processed h (enriched_transfer (chain s) h) ::
          (if 10000 <? Z.of_nat (size ({[h]} ∪ seenTxs s)) then [Cleared] else []))).
Proof.
  intros Hnew Hf.
  destruct (handlePendingTransaction_handled h s) as (s' & -> & Hh). f_equal.
  destruct Hh as [Hseen _|o w _ Hget Hfail _|tx w etx _ Hget Hetx ->].
  - contradiction.
  - change (getTransaction h (chain s)) with (Ok (Some (transfer h)), chain s) in Hget.
    exfalso. destruct Hfail as [Hfail|[e Hfail]]; congruence.
  - change (getTransaction h (chain s)) with (Ok (Some (transfer h)), chain s) in Hget.
    assert (tx = transfer h /\ w = chain s) as [-> ->] by (split; congruence).
    change (now (chain s)) with (chain s) in Hetx.
    rewrite enrich_transfer in Hetx.
    assert (etx = enriched_transfer (chain s) h) as -> by congruence.
    rewrite (storeTransaction_plain _ _ Hf); reflexivity.
Qed.

Lemma size_add_fresh h (seen : gset string) :
  h ∉ seen -> size ({[h]} ∪ seen) = S (size seen).
Proof.
  intros Hnew. rewrite size_union by (by apply disjoint_singleton_l).
  by rewrite size_singleton.
Qed.

(** Delivering distinct hashes that are not in the dedup set, as long as
    the set stays within 10 000 entries: each is processed once, none
    triggers a clear. *)
Lemma deliver_fresh hs : forall s,
  NoDup hs ->
  (forall h, h ∈ hs -> h ∉ seenTxs s) ->
  Redis.faults (redisClient s) = [] ->
  Z.of_nat (size (seenTxs s) + length hs) <= 10000 ->
  let s' := snd (deliver hs s) in
  (forall h, h ∈ seenTxs s' <-> h ∈ hs \/ h ∈ seenTxs s) /\
  size (seenTxs s') = (size (seenTxs s) + length hs)%nat /\
  chain s' = chain s /\
  Redis.faults (redisClient s') = [] /\
  events s'
  = events s ++ flat_map (fun h => [Fetched h; Processed h (enriched_transfer (chain s) h)]) hs /\
  Redis.history (redisClient s')
  = Redis.history (redisClient s) ++ ((fun h => Redis.SETEX (tx_key h) 300) <$> hs).
Proof.
  induction hs as [|h hs IH]; intros s Hnodup Hfresh Hf Hsize.
  - cbn. rewrite !app_nil_r, Nat.add_0_r. repeat split; try tauto.
    intros [Hin|Hin]; [by apply elem_of_nil in Hin | assumption].
  - apply NoDup_cons in Hnodup as [Hnotin Hnodup].
    assert (Hnew : h ∉ seenTxs s) by (apply Hfresh; by left).
    cbn [deliver]. unfold bind. rewrite (plain_step h s Hnew Hf).
    assert (Hsmall : (10000 <? Z.of_nat (size ({[h]} ∪ seenTxs s))) = false).
    { apply Z.ltb_ge. rewrite size_add_fresh by assumption. cbn [length] in Hsize. lia. }
    unfold recorded. rewrite Hsmall.
    match goal with |- context [deliver hs ?s1] => specialize (IH s1) end.
    cbn [seenTxs redisClient chain events Redis.faults Redis.history] in IH.
    destruct IH as (Hseen & Hsz & Hchain & Hfaults & Hevents & Hhistory);
      [assumption | | reflexivity | |].
    { intros h' Hin Hbad. apply elem_of_union in Hbad as [Hbad|Hbad].
      - apply elem_of_singleton in Hbad. by subst.
      - eapply Hfresh; [by right | eassumption]. }
    { rewrite size_add_fresh by assumption. cbn [length] in Hsize. lia. }
    cbn zeta. repeat split.
    + rewrite Hseen. rewrite elem_of_cons, elem_of_union, elem_of_singleton. tauto.
    + rewrite Hseen. rewrite elem_of_cons, elem_of_union, elem_of_singleton. tauto.
    + rewrite Hsz, size_add_fresh by assumption. cbn [length]. lia.
    + assumption.
    + assumption.
    + rewrite Hevents. cbn [flat_map]. by rewrite <- !app_assoc.
    + rewrite Hhistory. cbn [fmap list_fmap]. by rewrite <- !app_assoc.
Qed.

Lemma processed_count_app h evs evs' :
  processed_count h (evs ++ evs') = (processed_count h evs + processed_count h evs')%nat.
Proof. unfold processed_count. by rewrite List.filter_app, length_app. Qed.

Lemma setex_count_app key cs cs' :
  setex_count key (cs ++ cs') = (setex_count key cs + setex_count key cs')%nat.
Proof. unfold setex_count. by rewrite List.filter_app, length_app. Qed.

Lemma processed_count_others h clock hs :
  h ∉ hs ->
  processed_count h
    (flat_map (fun h' => [Fetched h'; Processed h' (enriched_transfer clock h')]) hs) = 0%nat.
Proof.
  induction hs as [|h' hs IH]; intros Hnotin; [reflexivity|].
  apply not_elem_of_cons in Hnotin as [Hne Hnotin].
  cbn [flat_map]. rewrite processed_count_app, (IH Hnotin).
  unfold processed_count. cbn [List.filter app].
  by rewrite (proj2 (String.eqb_neq h h') Hne).
Qed.

Lemma tx_key_inj h h' : tx_key h = tx_key h' -> h = h'.
Proof. unfold tx_key. unfold String.append. cbn. congruence. Qed.

Lemma setex_count_others h hs :
  h ∉ hs ->
  setex_count (tx_key h) ((fun h' => Redis.SETEX (tx_key h') 300) <$> hs) = 0%nat.
Proof.
  induction hs as [|h' hs IH]; intros Hnotin; [reflexivity|].
  apply not_elem_of_cons in Hnotin as [Hne Hnotin].
  assert (Hkey : tx_key h <> tx_key h') by (intros Hk; by apply tx_key_inj in Hk).
  rewrite fmap_cons. unfold setex_count in *. cbn [List.filter].
  rewrite (proj2 (String.eqb_neq _ _) Hkey). by apply IH.
Qed.

End PlainNodeRuns.

Section Reingest.

Import Js MempoolListener PlainNode ListenerObservations.
Implicit Types s : MempoolListener.t Z.

Lemma plain_step_clear h s :
  h ∉ seenTxs s -> Redis.faults (redisClient s) = [] ->
  10000 < Z.of_nat (size ({[h]} ∪ seenTxs s)) ->
  exists r,
    handlePendingTransaction h s
    = (Ok tt,
       mkListener ∅ r (chain s)
         (events s ++ [Fetched h; Processed h (enriched_transfer (chain s) h); Cleared])) /\
    Redis.faults r = [] /\
    Redis.history r = Redis.history (redisClient s) ++ [Redis.SETEX (tx_key h) 300].
Proof.
  intros Hnew Hf Hbig. rewrite (plain_step h s Hnew Hf). unfold recorded.
  apply Z.ltb_lt in Hbig. rewrite Hbig. eexists. split; [reflexivity|]. by split.
Qed.

Lemma plain_step_keep h s :
  h ∉ seenTxs s -> Redis.faults (redisClient s) = [] ->
  Z.of_nat (size ({[h]} ∪ seenTxs s)) <= 10000 ->
  exists r,
    handlePendingTransaction h s
    = (Ok tt,
       mkListener ({[h]} ∪ seenTxs s) r (chain s)
         (events s ++ [Fetched h; Processed h (enriched_transfer (chain s) h)])) /\
    Redis.faults r = [] /\
    Redis.history r = Redis.history (redisClient s) ++ [Redis.SETEX (tx_key h) 300].
Proof.
  intros Hnew Hf Hsmall. rewrite (plain_step h s Hnew Hf). unfold recorded.
  apply Z.ltb_ge in Hsmall. rewrite Hsmall. eexists. split; [reflexivity|]. by split.
Qed.

(** The log and the cache history after 10 001 distinct hashes and the
    first of them again. *)
Lemma reingest_run (N : nat) :
  Z.of_nat N = 10000 ->
  exists s clock1 clock2 clock3,
    snd (deliver (burst (S N) ++ [tx_hash_of 0]) (initial 0)) = s /\
    events s
    = (flat_map (fun h => [Fetched h; Processed h (enriched_transfer clock1 h)]) (burst N)
       ++ [Fetched (tx_hash_of N); Processed (tx_hash_of N)
             (enriched_transfer clock2 (tx_hash_of N)); Cleared])
      ++ [Fetched (tx_hash_of 0); Processed (tx_hash_of 0)
            (enriched_transfer clock3 (tx_hash_of 0))] /\
    Redis.history (redisClient s)
    = (((fun h => Redis.SETEX (tx_key h) 300) <$> burst N)
       ++ [Redis.SETEX (tx_key (tx_hash_of N)) 300])
      ++ [Redis.SETEX (tx_key (tx_hash_of 0)) 300].
Proof.
  intros HN.
  assert (Hbig : Z.of_nat N < 16 ^ 64) by (rewrite HN; reflexivity).
  destruct (deliver_fresh (burst N) (initial 0))
    as (Hseen & Hsize & Hchain & Hfaults & Hevents & Hhistory).
  { apply burst_NoDup. lia. }
  { intros h' _. apply not_elem_of_empty. }
  { reflexivity. }
  { change (seenTxs (initial 0)) with (∅ : gset string). rewrite size_empty.
    unfold burst. rewrite length_fmap, length_seq. lia. }
  change (seenTxs (initial 0)) with (∅ : gset string) in Hseen, Hsize.
  change (events (initial 0)) with (@nil Event) in Hevents.
  change (Redis.history (redisClient (initial 0))) with (@nil Redis.command) in Hhistory.
  rewrite size_empty in Hsize. unfold burst in Hsize.
  rewrite length_fmap, length_seq in Hsize. fold (burst N) in Hsize.
  rewrite !app_nil_l in *.
  remember (snd (deliver (burst N) (initial 0))) as s1 eqn:Hs1.
  assert (Hlast : tx_hash_of N ∉ seenTxs s1).
  { rewrite Hseen. intros [Hin|Hin]; [|by apply elem_of_empty in Hin].
    apply list_elem_of_fmap in Hin as (i & Heq & Hi). apply elem_of_seq in Hi.
    apply tx_hash_of_inj in Heq; lia. }
  destruct (plain_step_clear (tx_hash_of N) s1 Hlast Hfaults) as (r2 & Hstep2 & Hf2 & Hh2).
  { rewrite size_add_fresh by assumption. lia. }
  destruct (plain_step_keep (tx_hash_of 0)
              (mkListener ∅ r2 (chain s1)
                 (events s1 ++ [Fetched (tx_hash_of N);
                                Processed (tx_hash_of N)
                                  (enriched_transfer (chain s1) (tx_hash_of N)); Cleared])))
    as (r3 & Hstep3 & Hf3 & Hh3).
  { apply not_elem_of_empty. }
  { exact Hf2. }
  { change (seenTxs (mkListener ∅ _ _ _)) with (∅ : gset string).
    rewrite size_add_fresh, size_empty by apply not_elem_of_empty. lia. }
  eexists. exists (chain (initial 0)), (chain s1), (chain s1).
  split; [reflexivity|].
  assert (Hburst : burst (S N) = burst N ++ [tx_hash_of N]).
  { unfold burst. by rewrite seq_S, fmap_app. }
  rewrite Hburst, !deliver_app, <- Hs1, Hstep2.
  change (snd (Ok tt, ?x)) with x. rewrite Hstep3.
  change (snd (Ok tt, ?x)) with x.
  change (events (mkListener _ _ _ ?e)) with e.
  change (redisClient (mkListener _ ?r _ _)) with r.
  change (redisClient (mkListener _ ?r _ _)) with r in Hh3.
  rewrite Hh3, Hh2, Hhistory, Hevents. split; reflexivity.
Qed.

End Reingest.

(** C6 as stated fails: on the plain node, the hash number 0 is delivered,
    then 10 000 other hashes, the last of which takes the dedup set past
    10 000 and clears it, then the hash number 0 again.  It is processed
    twice, and its key is written to the cache twice. *)
Lemma hash_processed_twice :
  PlainNode.processed_count (PlainNode.tx_hash_of 0)
    (MempoolListener.events
       (snd (MempoolListener.deliver
               (PlainNode.burst (S (Z.to_nat 10000)) ++ [PlainNode.tx_hash_of 0])
               (MempoolListener.initial 0)))) = 2%nat /\
  PlainNode.setex_count (MempoolListener.tx_key (PlainNode.tx_hash_of 0))
    (Redis.history
       (MempoolListener.redisClient
          (snd (MempoolListener.deliver
                  (PlainNode.burst (S (Z.to_nat 10000)) ++ [PlainNode.tx_hash_of 0])
                  (MempoolListener.initial 0))))) = 2%nat.
Proof.
  assert (HN : Z.of_nat (Z.to_nat 10000) = 10000) by lia.
  revert HN. generalize (Z.to_nat 10000). intros N HN.
  destruct (reingest_run N HN) as (s & c1 & c2 & c3 & -> & Hevents & Hhistory).
  rewrite Hevents, Hhistory.
  assert (Hsplit : PlainNode.burst N
                   = PlainNode.tx_hash_of 0
                     :: (PlainNode.tx_hash_of <$> seq 1 (Nat.pred N))).
  { destruct N as [|m]; [lia|]. reflexivity. }
  assert (Hrest : PlainNode.tx_hash_of 0 ∉ PlainNode.tx_hash_of <$> seq 1 (Nat.pred N)).
  { intros Hin. apply list_elem_of_fmap in Hin as (i & Heq & Hi).
    apply elem_of_seq in Hi. symmetry in Heq.
    apply tx_hash_of_inj in Heq; [lia | | reflexivity].
    apply Z.lt_trans with 10000; [lia | reflexivity]. }
  assert (Hne : PlainNode.tx_hash_of 0 <> PlainNode.tx_hash_of N).
  { intros Heq. apply tx_hash_of_inj in Heq; [lia | reflexivity | rewrite HN; reflexivity]. }
  assert (Hkey : MempoolListener.tx_key (PlainNode.tx_hash_of 0)
                 <> MempoolListener.tx_key (PlainNode.tx_hash_of N))
    by (intros Hk; apply tx_key_inj in Hk; exact (Hne Hk)).
  rewrite Hsplit. split.
  - rewrite !processed_count_app. cbn [flat_map].
    rewrite processed_count_app, (processed_count_others _ _ _ Hrest).
    unfold PlainNode.processed_count. cbn [List.filter].
    rewrite String.eqb_refl, (proj2 (String.eqb_neq _ _) Hne). reflexivity.
  - rewrite !setex_count_app, fmap_cons.
    unfold PlainNode.setex_count at 1. cbn [List.filter]. rewrite String.eqb_refl.
    cbn [length]. fold (PlainNode.setex_count (MempoolListener.tx_key (PlainNode.tx_hash_of 0))
      ((fun h => Redis.SETEX (MempoolListener.tx_key h) 300)
         <$> (PlainNode.tx_hash_of <$> seq 1 (Nat.pred N)))).
    rewrite (setex_count_others _ _ Hrest).
    unfold PlainNode.setex_count. cbn [List.filter].
    rewrite String.eqb_refl, (proj2 (String.eqb_neq _ _) Hkey). reflexivity.
Qed.

(** ** Runs of the store and of the cleanup *)

(** The TraderJoe swap of [PlainNode.swap_response] is decoded as a swap,
    and the store leaves the empty cache empty. *)
Lemma decoded_swap_is_not_stored_witness :
  exists etx,
    MempoolListener.enrichTransaction 0 (PlainNode.swap_response (PlainNode.tx_hash_of 1)) tt
    = (Js.Ok etx, tt) /\
    MempoolListener.is_swap etx = true /\
    MempoolListener.storeTransaction etx (Redis.mkRedis ∅ [] [])
    = (Js.Ok tt, Redis.mkRedis ∅ [] []).
Proof.
  eexists.
  split; [vm_compute; reflexivity|].
  split; [vm_compute; reflexivity|].
  apply (decoded_swap_is_not_stored 0 (PlainNode.swap_response (PlainNode.tx_hash_of 1)));
    vm_compute; reflexivity.
Defined.

(** A swap that [JSON.stringify] accepts creates the swap queue in the empty
    cache; the next cleanup deletes it. *)
Lemma cleanup_deletes_keys_without_expiry_witness :
  Redis.faults (snd (MempoolListener.storeTransaction
                       (PlainNode.bare_swap (PlainNode.tx_hash_of 1))
                       (Redis.mkRedis ∅ [] []))) = [] /\
  (exists e,
     Redis.db (snd (MempoolListener.storeTransaction
                      (PlainNode.bare_swap (PlainNode.tx_hash_of 1))
                      (Redis.mkRedis ∅ [] []))) !! MempoolListener.swap_queue = Some e) /\
  Redis.db (snd (MempoolListener.cleanupOldEntries
                   (snd (MempoolListener.storeTransaction
                           (PlainNode.bare_swap (PlainNode.tx_hash_of 1))
                           (Redis.mkRedis ∅ [] []))))) !! MempoolListener.swap_queue = None.
Proof.
  assert (Hf : Redis.faults (snd (MempoolListener.storeTransaction
                       (PlainNode.bare_swap (PlainNode.tx_hash_of 1))
                       (Redis.mkRedis ∅ [] []))) = []) by (vm_compute; reflexivity).
  split; [exact Hf|].
  split; [eexists; vm_compute; reflexivity|].
  apply (cleanup_deletes_keys_without_expiry _ Hf).
  apply ListenerObservations.reaches_store, ListenerObservations.reaches_before_queue.
  vm_compute; reflexivity.
Defined.

(** ** Invocations of the handler on the event loop *)

Section InterleavedProperties.

Import Js MempoolListener ListenerObservations InterleavedListener EventLoopObservations.
Context {W : Type} `{Chain W}.

Lemma complete_bind_run {St A B} (r : Run St A) (f : A -> Co St B) :
  complete (bind_run r f)
  = match complete r with
    | (Ok a, s) => complete (f a s)
    | (Throw e, s) => (Throw e, s)
    end.
Proof.
  induction r as [[a|e] s|s resume IH]; cbn [bind_run complete]; [reflexivity..|].
  apply IH.
Qed.

Lemma complete_catch_run {St A} (r : Run St A) (handler : Thrown -> Co St A) :
  complete (catch_run r handler)
  = match complete r with
    | (Ok a, s) => (Ok a, s)
    | (Throw e, s) => complete (handler e s)
    end.
Proof.
  induction r as [[a|e] s|s resume IH]; cbn [catch_run complete]; [reflexivity..|].
  apply IH.
Qed.

Lemma complete_settled_later {St A} (r : Run St A) :
  complete (settled_later r) = complete r.
Proof.
  induction r as [o s|s resume IH]; cbn [settled_later complete]; [reflexivity|].
  apply IH.
Qed.

Lemma complete_lift {St A} (m : M St A) s : complete (lift m s) = m s.
Proof. unfold lift. by destruct (m s). Qed.

Lemma complete_await {St A} (c : Co St A) s : complete (await c s) = complete (c s).
Proof. apply complete_settled_later. Qed.

Lemma complete_co_bind {St A B} (c : Co St A) (f : A -> Co St B) s :
  complete (co_bind c f s)
  = match complete (c s) with
    | (Ok a, s') => complete (f a s')
    | (Throw e, s') => (Throw e, s')
    end.
Proof. apply complete_bind_run. Qed.

Lemma complete_co_try_catch {St A} (body : Co St A) (handler : Thrown -> Co St A) s :
  complete (co_try_catch body handler s)
  = match complete (body s) with
    | (Ok a, s') => (Ok a, s')
    | (Throw e, s') => complete (handler e s')
    end.
Proof. apply complete_catch_run. Qed.

Lemma JSON_stringify_state {S1 S2} tx (s1 : S1) (s2 : S2) :
  JSON_stringify tx s1 = (fst (JSON_stringify tx s2), s1).
Proof.
  unfold JSON_stringify. destruct (decodedCall tx) as [d|]; [|reflexivity].
  destruct (existsb is_bigint (args d)); reflexivity.
Qed.

Ltac complete_step :=
  repeat first [ rewrite complete_co_try_catch | rewrite complete_co_bind
               | rewrite complete_await | rewrite complete_lift ];
  cbv beta; cbn [redisClient seenTxs chain events fst snd].

(** With nothing else in between, the suspended [storeTransaction] is
    [storeTransaction] on the cache of the listener. *)
Lemma complete_storeTransaction tx (s : MempoolListener.t W) :
  complete (InterleavedListener.storeTransaction tx s)
  = on_redis (MempoolListener.storeTransaction tx) s.
Proof.
  destruct s as [seen r w evs].
  unfold InterleavedListener.storeTransaction, MempoolListener.storeTransaction.
  unfold on_redis, try_catch, bind. complete_step.
  rewrite (JSON_stringify_state tx (mkListener seen r w evs) r).
  rewrite (JSON_stringify_state tx r r).
  destruct (fst (JSON_stringify tx r)) as [json|e] eqn:Hjson;
    cbn [fst]; [|complete_step; reflexivity].
  complete_step.
  destruct (Redis.setEx _ _ json r) as [[[]|e] r1];
    [|complete_step; reflexivity].
  destruct (is_swap tx); [|complete_step; reflexivity].
  complete_step.
  rewrite (JSON_stringify_state tx _ r1), (JSON_stringify_state tx r1 r1).
  destruct (fst (JSON_stringify tx r1)) as [json'|e] eqn:Hjson';
    cbn [fst]; [|complete_step; reflexivity].
  complete_step.
  destruct (Redis.setEx _ _ json' r1) as [[[]|e] r2];
    [|complete_step; reflexivity].
  complete_step.
  destruct (Redis.lPush _ _ r2) as [[n|e] r3];
    [|complete_step; reflexivity].
  complete_step.
  destruct (Redis.lTrim _ _ _ r3) as [[[]|e] r4]; complete_step; reflexivity.
Qed.

(** With nothing else in between, an invocation is a run of the handler
    from its start to its return. *)
Lemma complete_handlePendingTransaction h (s : MempoolListener.t W) :
  complete (InterleavedListener.handlePendingTransaction h s)
  = MempoolListener.handlePendingTransaction h s.
Proof.
  destruct s as [seen r w evs].
  unfold InterleavedListener.handlePendingTransaction,
    MempoolListener.handlePendingTransaction.
  unfold try_catch, bind, get. complete_step.
  destruct (bool_decide (h ∈ seen)); [complete_step; reflexivity|].
  complete_step. unfold emit, modify, on_chain. complete_step.
  destruct (getTransaction h w) as [[[tx|]|e] w1];
    [|complete_step; reflexivity..].
  complete_step. unfold set_seen, modify. complete_step.
  unfold pure_call.
  destruct (fst (enrichTransaction (now w1) tx tt)) as [etx|e];
    [|complete_step; reflexivity].
  complete_step. rewrite complete_storeTransaction.
  destruct (on_redis (MempoolListener.storeTransaction etx) _) as [[[]|e] s1];
    [|complete_step; reflexivity].
  complete_step.
  destruct (10000 <? Z.of_nat (size (seenTxs s1))); complete_step; reflexivity.
Qed.

Lemma run_cons turn turns (l : EventLoop W) :
  run (turn :: turns) l
  = match step turn l with Some l' => run turns l' | None => None end.
Proof. reflexivity. Qed.

Lemma run_app turns turns' : forall l : EventLoop W,
  run (turns ++ turns') l
  = match run turns l with Some l' => run turns' l' | None => None end.
Proof.
  induction turns as [|turn turns IH]; intros l; [reflexivity|].
  cbn [app run]. destruct (step turn l); [apply IH | reflexivity].
Qed.

(** The only suspended invocation, resumed until it returns. *)
Lemma resumed_alone (r : Run (MempoolListener.t W) unit) :
  forall h rest s done,
    rest s = r ->
    exists n,
      run (repeat (Resume 0) n) (mkLoop s [mkInvocation h rest] done)
      = Some (mkLoop (snd (complete r)) []
                (done ++ [(h, size (seenTxs (snd (complete r))))])).
Proof.
  induction r as [o s'|s1 resume IH]; intros h rest s done Hrest.
  - exists 1%nat. cbn [repeat run step suspended listener returned lookup list_lookup
                       txHash_of rest_of delete list_delete].
    rewrite Hrest. reflexivity.
  - destruct (IH s1 h resume s1 done eq_refl) as (n & Hn).
    exists (S n). cbn [repeat]. rewrite run_cons.
    cbn [step suspended listener returned lookup list_lookup txHash_of rest_of
         delete list_delete].
    rewrite Hrest. cbn [ran app complete]. exact Hn.
Qed.

(** An invocation that starts while no other is suspended, resumed until
    it returns, is a run of the handler from its start to its return. *)
Lemma invocation_alone h (s : MempoolListener.t W) done :
  exists n,
    run (Pending h :: repeat (Resume 0) n) (mkLoop s [] done)
    = Some (mkLoop (snd (MempoolListener.handlePendingTransaction h s)) []
              (done ++ [(h, size (seenTxs
                               (snd (MempoolListener.handlePendingTransaction h s))))])).
Proof.
  rewrite <- complete_handlePendingTransaction.
  destruct (InterleavedListener.handlePendingTransaction h s) as [o s'|s1 resume] eqn:Hrun.
  - exists 0%nat. rewrite run_cons. cbn [step listener suspended returned].
    rewrite Hrun. reflexivity.
  - destruct (resumed_alone (resume s1) h resume s1 done eq_refl) as (n & Hn).
    exists n. rewrite run_cons. cbn [step listener suspended returned].
    rewrite Hrun. cbn [ran app complete]. exact Hn.
Qed.

Lemma ran_bounded_alone h (r : Run (MempoolListener.t W) unit) done :
  Forall (fun c => Z.of_nat (snd c) <= 10000) done ->
  Z.of_nat (size (seenTxs (snd (complete r)))) <= 10000 ->
  bounded_alone (ran h r [] done).
Proof.
  intros Hdone Hr. destruct r as [o s|s resume]; cbn [ran complete snd] in *.
  - split; cbn [returned suspended listener]; [|assumption].
    apply Forall_app. split; [assumption|]. by repeat constructor.
  - split; cbn [returned suspended listener app rest_of]; assumption.
Qed.

(** One turn of the event loop, with no pending hash taken up while an
    invocation is suspended. *)
Lemma step_bounded_alone turn (l l' : EventLoop W) :
  bounded_alone l ->
  one_at_a_time [turn] l = true ->
  step turn l = Some l' ->
  bounded_alone l'.
Proof.
  intros [Hdone Hsusp] Hserial Hstep. destruct turn as [h|i].
  - cbn [one_at_a_time] in Hserial. apply andb_prop in Hserial as [Hnone _].
    apply bool_decide_eq_true_1 in Hnone. rewrite Hnone in Hsusp.
    cbn [step] in Hstep. rewrite Hnone in Hstep. inversion Hstep; subst l'.
    apply ran_bounded_alone; [assumption|].
    rewrite complete_handlePendingTransaction.
    destruct (handlePendingTransaction_handled h (listener l)) as (s' & -> & Hh).
    by apply (handled_bounded h (listener l) s').
  - cbn [step] in Hstep.
    destruct (suspended l) as [|invocation [|other others]] eqn:Hl;
      [discriminate| |contradiction].
    destruct i as [|i]; [|discriminate].
    cbn [lookup list_lookup delete list_delete] in Hstep. inversion Hstep; subst l'.
    by apply ran_bounded_alone.
Qed.

Lemma run_bounded_alone turns : forall l l' : EventLoop W,
  bounded_alone l ->
  one_at_a_time turns l = true ->
  run turns l = Some l' ->
  bounded_alone l'.
Proof.
  induction turns as [|turn turns IH]; intros l l' Hl Hserial Hrun.
  - inversion Hrun; by subst.
  - rewrite run_cons in Hrun. cbn [one_at_a_time] in Hserial.
    destruct (step turn l) as [l1|] eqn:Hstep; [|discriminate].
    apply andb_prop in Hserial as [Hturn Hrest].
    apply (IH l1 l'); [|assumption..].
    apply (step_bounded_alone turn l l1); [assumption| |assumption].
    cbn [one_at_a_time]. rewrite Hturn, Hstep. reflexivity.
Qed.


End InterleavedProperties.

(** ** The event loop on the plain node *)

Section PlainEventLoop.

Import Js MempoolListener ListenerObservations InterleavedListener PlainNode PlainEvents.

Ltac invocation_runs :=
  repeat (progress (
    unfold InterleavedListener.handlePendingTransaction,
      InterleavedListener.storeTransaction, co_try_catch, co_bind, lift, await,
      get, emit, set_seen, modify, on_chain, on_redis, pure_call, bind, ret,
      Redis.setEx, Redis.run, JSON_stringify, is_swap;
    cbn [bind_run catch_run settled_later seenTxs redisClient chain events
         getTransaction now plain_chain Redis.faults Redis.db Redis.history
         fst snd decodedCall hash enriched_transfer tail];
    change (Constants.MEMPOOL_TTL <=? 0) with false;
    rewrite ?enrich_transfer)).

Ltac loop_turn :=
  rewrite run_cons;
  cbn [step listener suspended returned lookup list_lookup delete list_delete
       txHash_of rest_of];
  invocation_runs;
  cbn [ran app].

Ltac loop_turn_unseen Hnew :=
  rewrite run_cons; cbn [step listener suspended returned];
  unfold InterleavedListener.handlePendingTransaction at 1;
  unfold co_try_catch, co_bind, lift, get; cbn [bind_run catch_run seenTxs];
  rewrite (bool_decide_eq_false_2 _ Hnew);
  invocation_runs; cbn [ran app].

(** On the plain node with a reliable cache, the turns of [alone h] take
    the invocation on a hash that is not in the dedup set from its start
    to its return. *)
Lemma plain_alone h (s : MempoolListener.t Z) done :
  h ∉ seenTxs s -> Redis.faults (redisClient s) = [] ->
  run (alone h) (mkLoop s [] done)
  = Some (mkLoop (snd (MempoolListener.handlePendingTransaction h s)) []
            (done ++ [(h, size (seenTxs
                             (snd (MempoolListener.handlePendingTransaction h s))))])).
Proof.
  intros Hnew Hf. rewrite (plain_step h s Hnew Hf). cbn [snd seenTxs].
  destruct s as [seen [db fs hist] w evs].
  cbn [seenTxs redisClient chain events Redis.faults Redis.db Redis.history] in *.
  subst fs. unfold alone, recorded.
  loop_turn_unseen Hnew. loop_turn. loop_turn. loop_turn. loop_turn.
  destruct (10000 <? Z.of_nat (size ({[h]} ∪ seen)));
    cbn [catch_run ran run redisClient chain events]; rewrite <- !app_assoc; reflexivity.
Qed.


(** Distinct hashes that are not in the dedup set, one at a time, as long
    as the set stays within 10 000 entries: the event loop ends where the
    deliveries one after the other end. *)
Lemma plain_one_at_a_time hs : forall (s : MempoolListener.t Z) done,
  NoDup hs ->
  (forall h, h ∈ hs -> h ∉ seenTxs s) ->
  Redis.faults (redisClient s) = [] ->
  Z.of_nat (size (seenTxs s) + length hs) <= 10000 ->
  exists done',
    run (flat_map alone hs) (mkLoop s [] done)
    = Some (mkLoop (snd (deliver hs s)) [] done').
Proof.
  induction hs as [|h hs IH]; intros s done Hnodup Hfresh Hf Hsize.
  - exists done. reflexivity.
  - apply NoDup_cons in Hnodup as [Hnotin Hnodup].
    assert (Hnew : h ∉ seenTxs s) by (apply Hfresh; by left).
    cbn [flat_map]. rewrite run_app, (plain_alone h s done Hnew Hf).
    cbn [deliver]. unfold bind.
    destruct (plain_step_keep h s Hnew Hf) as (r & Hstep & Hfr & _).
    { rewrite size_add_fresh by assumption. cbn [length] in Hsize. lia. }
    rewrite Hstep. cbn [snd].
    apply IH; cbn [seenTxs redisClient]; [assumption| |assumption|].
    + intros h' Hin Hbad. apply elem_of_union in Hbad as [Hbad|Hbad].
      * apply elem_of_singleton in Hbad. by subst.
      * eapply Hfresh; [by right | eassumption].
    + rewrite size_add_fresh by assumption. cbn [length] in Hsize. lia.
Qed.

(** The invocation on [hN] has recorded its hash and waits for the answer
    of the cache to SETEX when [h0], which is in the dedup set, arrives:
    the invocation on [h0] returns at once, leaving the set with the hash
    [hN] in it. *)
Lemma plain_overlap hN h0 (s : MempoolListener.t Z) done :
  hN ∉ seenTxs s -> h0 ∈ seenTxs s -> Redis.faults (redisClient s) = [] ->
  exists l,
    run [Pending hN; Resume 0; Resume 0; Pending h0] (mkLoop s [] done) = Some l /\
    returned l = done ++ [(h0, S (size (seenTxs s)))] /\
    seenTxs (listener l) = {[hN]} ∪ seenTxs s /\
    length (suspended l) = 1%nat.
Proof.
  intros Hnew Hseen Hf.
  destruct s as [seen [db fs hist] w evs].
  cbn [seenTxs redisClient chain events Redis.faults Redis.db Redis.history] in *.
  subst fs.
  loop_turn_unseen Hnew. loop_turn. loop_turn.
  rewrite run_cons. cbn [step listener suspended returned].
  unfold InterleavedListener.handlePendingTransaction at 1.
  unfold co_try_catch, co_bind, lift, get. cbn [bind_run catch_run seenTxs].
  rewrite bool_decide_eq_true_2 by (apply elem_of_union; by right).
  unfold ret. cbn [bind_run catch_run ran run seenTxs].
  eexists. split; [reflexivity|]. cbn [returned listener suspended seenTxs length].
  rewrite size_add_fresh by assumption. repeat split.
Qed.

(** After 10 000 distinct hashes one at a time, the invocation on one more
    hash is overtaken, between recording its hash and its size test, by an
    invocation on the first hash. *)
Lemma overlapping_run (N : nat) :
  Z.of_nat N = 10000 ->
  exists l,
    run (overlapping N) (started 0) = Some l /\
    last (returned l) = Some (tx_hash_of 0, S N) /\
    size (seenTxs (listener l)) = S N /\
    length (suspended l) = 1%nat.
Proof.
  intros HN.
  assert (Hbig : Z.of_nat N < 16 ^ 64) by (rewrite HN; reflexivity).
  assert (Hnodup : NoDup (burst N)) by (apply burst_NoDup; lia).
  assert (Hlen : length (burst N) = N)
    by (unfold burst; by rewrite length_fmap, length_seq).
  assert (Hroom : Z.of_nat (size (seenTxs (initial 0)) + length (burst N)) <= 10000).
  { change (seenTxs (initial 0)) with (∅ : gset string). rewrite size_empty, Hlen. lia. }
  destruct (deliver_fresh (burst N) (initial 0) Hnodup)
    as (Hseen & Hsize & _ & Hfaults & _);
    [intros h' _; apply not_elem_of_empty | reflexivity | exact Hroom |].
  destruct (plain_one_at_a_time (burst N) (initial 0) [] Hnodup)
    as (done & Hrun);
    [intros h' _; apply not_elem_of_empty | reflexivity | exact Hroom |].
  change (seenTxs (initial 0)) with (∅ : gset string) in Hseen, Hsize.
  rewrite size_empty, Hlen, Nat.add_0_l in Hsize.
  remember (snd (deliver (burst N) (initial 0))) as s1 eqn:Hs1.
  assert (Hlast : tx_hash_of N ∉ seenTxs s1).
  { rewrite Hseen. intros [Hin|Hin]; [|by apply elem_of_empty in Hin].
    apply list_elem_of_fmap in Hin as (i & Heq & Hi). apply elem_of_seq in Hi.
    apply tx_hash_of_inj in Heq; lia. }
  assert (Hfirst : tx_hash_of 0 ∈ seenTxs s1).
  { rewrite Hseen. left. apply list_elem_of_fmap. exists 0%nat.
    split; [reflexivity|]. apply elem_of_seq. lia. }
  destruct (plain_overlap (tx_hash_of N) (tx_hash_of 0) s1 done Hlast Hfirst Hfaults)
    as (l & Hl & Hreturned & Hset & Hsusp).
  exists l. unfold overlapping, started. rewrite run_app, Hrun, Hl.
  split; [reflexivity|]. rewrite Hreturned, last_snoc, Hset.
  rewrite size_add_fresh, Hsize by assumption. repeat split. assumption.
Qed.

End PlainEventLoop.


